(** * Gorse-Flask recommendation engine: a shallow embedding of [flask_app/app.py]

    The development follows the serving pipeline of the application:
    candidate generation, merge, hybrid scoring, personalization mixing and
    the session cache with its pagination.

    Modelling conventions.
    - Python floats are modelled by exact rationals ([Q]); [round(x, 6)] is
      round-half-to-even at six decimals.
    - A MongoDB collection is a list of typed documents; a field that may be
      missing is an [option].  [createdAt] is kept in both representations
      the code handles (a datetime or a string).
    - A Python [dict] whose iteration order is observable is an association
      list in insertion order ([od_get] / [od_set]); Python sets of strings
      are [gset string].
    - A Python exception is the [Raise] outcome of [Result].
    - The clock is read once per request ([now], in microseconds).
    - Library functions whose code is not part of the repository
      ([datetime.fromisoformat], [float] on strings, the MD5 session token and
      the random source of [random.shuffle]) are the fields of [Lib]. *)

From Stdlib Require Import QArith Qround Lqa ZArith String Ascii.
From stdpp Require Import gmap strings list.

Local Open Scope Z_scope.

(** ** Python values and idioms *)

Inductive PyErr := TypeError | ValueError | AttributeError.

Inductive Result (A : Type) :=
| Ok (a : A)
| Raise (e : PyErr).
Arguments Ok {A} a.
Arguments Raise {A} e.

Definition bind {A B} (m : Result A) (k : A -> Result B) : Result B :=
  match m with
  | Ok a => k a
  | Raise e => Raise e
  end.

Notation "'try!' x ':=' m 'in' k" := (bind m (fun x => k))
  (at level 10, x name, m at level 200, k at level 200).

Fixpoint mapM {A B} (f : A -> Result B) (l : list A) : Result (list B) :=
  match l with
  | [] => Ok []
  | x :: r => try! y := f x in try! ys := mapM f r in Ok (y :: ys)
  end.

(** [a or b] on optional strings: an absent value and the empty string are
    falsy. *)
Definition truthy_str (o : option string) : bool :=
  match o with
  | Some EmptyString | None => false
  | Some _ => true
  end.

(** [x.get(k, 0)] for a numeric field. *)
Definition num_or0 (o : option Q) : Q := default 0%Q o.

(** [max(a, b)]: Python returns the first argument unless the second is
    strictly greater. *)
Definition py_max (a b : Q) : Q := if Qlt_le_dec a b then b else a.

(** [min(a, b)]: the first argument unless the second is strictly smaller. *)
Definition py_min (a b : Q) : Q := if Qlt_le_dec b a then b else a.

(** [int(x)]: truncation toward zero. *)
Definition py_int (x : Q) : Z := Z.quot (Qnum x) (Zpos (Qden x)).

(** [round(x)] to the nearest integer, ties to even. *)
Definition round_half_even (x : Q) : Z :=
  let f := Qfloor x in
  match Qcompare (x - inject_Z f) (1 # 2) with
  | Lt => f
  | Gt => f + 1
  | Eq => if Z.even f then f else f + 1
  end.

(** [round(x, 6)]. *)
Definition round6 (x : Q) : Q :=
  Qmake (round_half_even (x * inject_Z 1000000)) 1000000.

(** [lst[start:end]] for non-negative indices. *)
Definition py_slice {A} (l : list A) (start stop : Z) : list A :=
  take (Z.to_nat (stop - start)) (drop (Z.to_nat start) l).

(** [sorted(l, key=..., reverse=True)] and [cursor.sort(field, -1)]: a stable
    sort in descending key order; [le a b] reads "key a <= key b". *)
Section sorting.
Context {A : Type} (le : A -> A -> bool).

Fixpoint insert_desc (x : A) (l : list A) : list A :=
  match l with
  | [] => [x]
  | y :: r => if le y x then x :: y :: r else y :: insert_desc x r
  end.

Definition sorted_desc (l : list A) : list A := foldr insert_desc [] l.
End sorting.

(** Insertion-ordered dictionaries. *)
Section odict.
Context {K V : Type} `{EqDecision K}.

Fixpoint od_get (d : list (K * V)) (k : K) : option V :=
  match d with
  | [] => None
  | (k', v) :: r => if decide (k = k') then Some v else od_get r k
  end.

Fixpoint od_set (d : list (K * V)) (k : K) (v : V) : list (K * V) :=
  match d with
  | [] => [(k, v)]
  | (k', v') :: r =>
      if decide (k = k') then (k, v) :: r else (k', v') :: od_set r k v
  end.

Definition od_values (d : list (K * V)) : list V := d.*2.
Definition od_keys (d : list (K * V)) : list K := d.*1.
End odict.

(** [random.shuffle]: the Fisher-Yates loop of CPython,
    [for i in reversed(range(1, len(x))): j = randbelow(i + 1); swap x[i], x[j]].
    [rnd i] is the draw made at index [i]. *)
Section shuffle.
Context {A : Type}.

Definition swap (i j : nat) (l : list A) : list A :=
  match l !! i, l !! j with
  | Some a, Some b => <[i := b]> (<[j := a]> l)
  | _, _ => l
  end.

Fixpoint shuffle_from (rnd : nat -> nat) (i : nat) (l : list A) : list A :=
  match i with
  | O => l
  | S i' => shuffle_from rnd i' (swap i (rnd i mod S i)%nat l)
  end.

Definition shuffle (rnd : nat -> nat) (l : list A) : list A :=
  shuffle_from rnd (length l - 1) l.
End shuffle.

(** ** Time *)

(** A [datetime]: microseconds since the epoch, naive or timezone-aware. *)
Inductive datetime := Naive (us : Z) | Aware (us : Z).

(** The value stored under [createdAt]. *)
Inductive TsValue := TsDatetime (d : datetime) | TsStr (s : string).

(** [s.replace("Z", "+00:00")]. *)
Fixpoint replace_Z (s : string) : string :=
  match s with
  | EmptyString => EmptyString
  | String c r =>
      if Ascii.eqb c "Z"%char then String.append "+00:00" (replace_Z r)
      else String c (replace_Z r)
  end.

(** [(now - ts).total_seconds() / 3600.0]. *)
Definition age_hours (now ts : Z) : Q := Qmake (now - ts) 3600000000.

(** ** Library functions outside the repository *)

Record Lib := {
  fromisoformat : string -> option datetime;
  float_of_str : string -> option Q;
  md5_token : string -> Z -> string;
  rnd : nat -> nat
}.

(** ** Documents of the store *)

(** An [ObjectId] is kept as its canonical string, 24 lower-case hexadecimal
    digits; [str(oid)] is that string. *)
Definition is_hex_digit (c : ascii) : bool :=
  let n := nat_of_ascii c in
  ((48 <=? n) && (n <=? 57) || (65 <=? n) && (n <=? 70)
   || (97 <=? n) && (n <=? 102))%nat.

Definition lower_hex (c : ascii) : ascii :=
  let n := nat_of_ascii c in
  if ((65 <=? n) && (n <=? 70))%nat then ascii_of_nat (n + 32) else c.

(** [ObjectId.is_valid(s)] for a string. *)
Definition ObjectId_is_valid (s : string) : bool :=
  (String.length s =? 24)%nat && forallb is_hex_digit (list_ascii_of_string s).

(** [ObjectId(s) if ObjectId.is_valid(s) else None]. *)
Definition ObjectId_of (s : string) : option string :=
  if ObjectId_is_valid s
  then Some (string_of_list_ascii (map lower_hex (list_ascii_of_string s)))
  else None.

(** [str(x)] of an optional ObjectId: [str(None)] is ["None"]. *)
Definition str_oid (o : option string) : string := default "None"%string o.

Record Feed := {
  feed_id : string;
  feed_userId : option string;
  feed_status : option string;
  feed_hashtags : list string;
  feed_createdAt : option TsValue;
  feed_decayedPopularityScore : option Q;
  feed_text : option string;
  feed_title : option string;
  feed_likeCount : option Z;
  feed_commentCount : option Z
}.

Record Like := {
  like_userId : option string;
  like_feedId : option string;
  like_targetId : option string
}.

Record Comment := {
  comment_userId : option string;
  comment_feedId : option string
}.

Record Saved := {
  saved_userId : option string;
  saved_feedId : option string
}.

Record Repost := {
  repost_userId : option string;
  repost_originalFeedId : option string
}.

Record Follow := {
  follow_followerId : option string;
  follow_followingId : option string;
  follow_status : option string
}.

Record Watch := {
  watch_user_id : option string;
  watch_item_id : option string;
  watch_time : option Q
}.

Record Interest := {
  interest_userId : option string;
  interest_interests : option (list string)
}.

Record Explore := {
  explore_feedId : option string;
  explore_status : option string;
  explore_popularityScore : option Q
}.

Record Related := {
  related_user_id : option string;
  related_item_id : option string;
  related_score : option Q
}.

Record DB := {
  feeds_col : list Feed;
  likes_col : list Like;
  comments_col : list Comment;
  saved_feeds_col : list Saved;
  reposts_col : list Repost;
  follows_col : list Follow;
  watch_col : list Watch;
  interests_col : list Interest;
  explore_feeds_col : list Explore;
  related_items_col : list Related
}.

Definition active : option string := Some "active"%string.

(** Order of optional numbers used by a descending sort: a missing field
    sorts lowest. *)
Definition optQ_le (a b : option Q) : bool :=
  match a, b with
  | None, _ => true
  | Some _, None => false
  | Some x, Some y => Qle_bool x y
  end.

(** Order of [createdAt] values: missing, then strings, then dates. *)
Definition ts_us (d : datetime) : Z :=
  match d with Naive us | Aware us => us end.

Definition ts_le (a b : option TsValue) : bool :=
  match a, b with
  | None, _ => true
  | Some _, None => false
  | Some (TsStr _), Some (TsDatetime _) => true
  | Some (TsDatetime _), Some (TsStr _) => false
  | Some (TsStr x), Some (TsStr y) =>
      match String.compare x y with Gt => false | _ => true end
  | Some (TsDatetime x), Some (TsDatetime y) => ts_us x <=? ts_us y
  end.

(** The active "following" edges of a user:
    [[f.get("followingId") for f in follows_col.find({"followerId": oid, "status": "active"})]]. *)
Definition following (db : DB) (user_oid : string) : list (option string) :=
  follow_followingId <$>
    filter (fun f => follow_followerId f = Some user_oid /\ follow_status f = active)
           (follows_col db).

(** ** Candidate records and scored recommendations *)

(** A candidate dict; an absent key is [None].  [item_id] itself may be
    Python's [None] (a related-item document without [related_item_id]). *)
Record Candidate := {
  item_id : option string;
  cf_score : option Q;
  content_score : option Q;
  social_score : option Q;
  popularity_score : option Q;
  category : option string;
  feed_data : option Feed
}.

(** An entry of the list returned by [compute_hybrid]; [s_feed_data] is
    [None] when the item document is empty. *)
Record Scored := {
  s_item_id : option string;
  score : Q;
  s_category : string;
  popularity : Q;
  s_feed_data : option Feed
}.

(** ** Exclusion sets *)

Definition get_user_seen_items (db : DB) (user_id : string) : gset string :=
  match ObjectId_of user_id with
  | None => ∅
  | Some user_oid =>
      list_to_set
        (omap like_feedId
           (filter (fun l => like_userId l = Some user_oid) (likes_col db)))
      ∪ list_to_set
        (omap comment_feedId
           (filter (fun c => comment_userId c = Some user_oid) (comments_col db)))
      ∪ list_to_set
        (omap saved_feedId
           (filter (fun s => saved_userId s = Some user_oid) (saved_feeds_col db)))
      ∪ list_to_set
        (omap repost_originalFeedId
           (filter (fun r => repost_userId r = Some user_oid) (reposts_col db)))
      ∪ list_to_set
        (omap (fun a => if truthy_str (watch_item_id a) then watch_item_id a else None)
           (filter (fun a => watch_user_id a = Some user_id) (watch_col db)))
  end.

Definition get_user_created_items (db : DB) (user_id : string) : gset string :=
  match ObjectId_of user_id with
  | None => ∅
  | Some user_oid =>
      list_to_set
        (feed_id <$> filter (fun f => feed_userId f = Some user_oid) (feeds_col db))
  end.

(** [iid in s] for a set of strings; [None] is never a member. *)
Definition in_set (iid : option string) (s : gset string) : bool :=
  match iid with
  | Some x => bool_decide (x ∈ s)
  | None => false
  end.

(** ** Candidate generation *)

Definition post : option string := Some "post"%string.

Definition feed_candidate (content : Q) (feed : Feed) : Candidate :=
  {| item_id := Some (feed_id feed);
     cf_score := None;
     content_score := Some content;
     social_score := None;
     popularity_score := Some (num_or0 (feed_decayedPopularityScore feed));
     category := post;
     feed_data := Some feed |}.

Definition candidate_interest (db : DB) (user_id : string) (limit : nat)
  : list Candidate :=
  match ObjectId_of user_id with
  | None => []
  | Some user_oid =>
      match filter (fun ui => interest_userId ui = Some user_oid) (interests_col db) with
      | [] => []
      | ui :: _ =>
          match default [] (interest_interests ui) with
          | [] => []
          | tags =>
              feed_candidate 0.7 <$>
                take limit
                  (filter (fun f => Exists (fun t => t ∈ tags) (feed_hashtags f)
                                    /\ feed_status f = active)
                          (feeds_col db))
          end
      end
  end.

Definition candidate_followed_users (db : DB) (user_id : string) (limit : nat)
  : list Candidate :=
  match ObjectId_of user_id with
  | None => []
  | Some user_oid =>
      match following db user_oid with
      | [] => []
      | followed =>
          feed_candidate 0.9 <$>
            take limit
              (sorted_desc (fun a b => ts_le (feed_createdAt a) (feed_createdAt b))
                 (filter (fun f => feed_userId f ∈ followed /\ feed_status f = active)
                         (feeds_col db)))
      end
  end.

(** [d[k] = d.get(k, 0) + delta]. *)
Definition od_add (d : list (string * Q)) (k : string) (delta : Q)
  : list (string * Q) :=
  od_set d k (num_or0 (od_get d k) + delta)%Q.

Definition candidate_social_boost (db : DB) (user_id : string)
  : list (string * Q) :=
  match ObjectId_of user_id with
  | None => []
  | Some user_oid =>
      match following db user_oid with
      | [] => []
      | friends =>
          let after_likes :=
            fold_left (fun d l => od_add d (str_oid (like_feedId l)) 0.5)
              (filter (fun l => like_userId l ∈ friends) (likes_col db)) [] in
          fold_left (fun d c => od_add d (str_oid (comment_feedId c)) 0.3)
            (filter (fun c => comment_userId c ∈ friends) (comments_col db))
            after_likes
      end
  end.

Definition candidate_trending (db : DB) (limit : nat) : list Candidate :=
  omap (fun feed =>
          match explore_feedId feed with
          | Some fid =>
              Some {| item_id := Some fid;
                      cf_score := None;
                      content_score := Some 0.5%Q;
                      social_score := None;
                      popularity_score := Some (num_or0 (explore_popularityScore feed));
                      category := post;
                      feed_data := None |}
          | None => None
          end)
    (take limit
       (sorted_desc
          (fun a b => optQ_le (explore_popularityScore a) (explore_popularityScore b))
          (filter (fun e => explore_status e = active) (explore_feeds_col db)))).

(** ** Scoring *)

(** An item document: [None] is the empty dict [{}]. *)
Definition doc_createdAt (item_doc : option Feed) : option TsValue :=
  match item_doc with
  | Some d => feed_createdAt d
  | None => None
  end.

(** The step function applied to the age of an item. *)
Definition recency_of_age (age : Q) : Q :=
  if Qlt_le_dec age 1 then 1.0%Q
  else if Qlt_le_dec age 24 then 0.8%Q
  else if Qlt_le_dec age 72 then 0.5%Q
  else 0.2%Q.

(** [utcnow() - ts]: subtracting an aware datetime from a naive one raises
    [TypeError]. *)
Definition recency_of_datetime (now : Z) (ts : datetime) : Result Q :=
  match ts with
  | Naive us => Ok (recency_of_age (age_hours now us))
  | Aware _ => Raise TypeError
  end.

Definition compute_recency_score (lib : Lib) (now : Z) (item_doc : option Feed)
  : Result Q :=
  match doc_createdAt item_doc with
  | None => Ok 0.2%Q
  | Some (TsStr EmptyString) => Ok 0.2%Q
  | Some (TsStr s) =>
      match fromisoformat lib (replace_Z s) with
      | Some ts => recency_of_datetime now ts
      | None => recency_of_datetime now (Naive now)
      end
  | Some (TsDatetime ts) => recency_of_datetime now ts
  end.

(** Item snapshot and popularity of a candidate. *)
Definition resolve_item (db : DB) (c : Candidate) : option Feed * Q :=
  match feed_data c with
  | Some item_doc => (Some item_doc, num_or0 (feed_decayedPopularityScore item_doc))
  | None =>
      match item_id c ≫= ObjectId_of with
      | Some oid =>
          match filter (fun f => feed_id f = oid) (feeds_col db) with
          | item_doc :: _ =>
              (Some item_doc, num_or0 (feed_decayedPopularityScore item_doc))
          | [] => (None, 0%Q)
          end
      | None => (None, 0%Q)
      end
  end.

(** [social_map.get(iid, 0)]. *)
Definition friend_boost_of (social_map : list (string * Q)) (iid : option string) : Q :=
  match iid with
  | Some k => num_or0 (od_get social_map k)
  | None => 0%Q
  end.

(** [1.2 if watch.get("watch_time", 0) >= 5 else 1.0] on the first matching
    watch record. *)
Definition watch_boost_of (db : DB) (user_id : string) (iid : option string) : Q :=
  let watch_time :=
    match filter (fun w => watch_user_id w = Some user_id /\ watch_item_id w = iid)
                 (watch_col db) with
    | w :: _ => num_or0 (watch_time w)
    | [] => 0%Q
    end in
  if Qle_bool 5 watch_time then 1.2%Q else 1.0%Q.

Definition hybrid_formula (cf content recency popularity friend_boost watch_boost : Q) : Q :=
  ((0.35 * cf + 0.30 * content + 0.15 * recency + 0.10 * popularity
    + 0.10 * friend_boost) * watch_boost)%Q.

Definition score_candidate (lib : Lib) (db : DB) (now : Z) (user_id : string)
    (social_map : list (string * Q)) (c : Candidate) : Result Scored :=
  let iid := item_id c in
  let '(item_doc, popularity) := resolve_item db c in
  let cf := num_or0 (cf_score c) in
  let content := num_or0 (content_score c) in
  try! recency := compute_recency_score lib now item_doc in
  let friend_boost := friend_boost_of social_map iid in
  let watch_boost := watch_boost_of db user_id iid in
  let final := hybrid_formula cf content recency popularity friend_boost watch_boost in
  Ok {| s_item_id := iid;
        score := round6 final;
        s_category := default "post"%string (category c);
        popularity := popularity;
        s_feed_data := item_doc |}.

Definition compute_hybrid (lib : Lib) (db : DB) (now : Z) (user_id : string)
    (candidates : list Candidate) : Result (list Scored) :=
  let social_map := candidate_social_boost db user_id in
  try! scored := mapM (score_candidate lib db now user_id social_map) candidates in
  Ok (sorted_desc (fun a b => Qle_bool (score a) (score b)) scored).

(** ** Merge *)

(** [merged[iid][key] = max(merged[iid].get(key, 0), c[key])] when [key in c]. *)
Definition merge_field (old new : option Q) : option Q :=
  match new with
  | Some x => Some (py_max (num_or0 old) x)
  | None => old
  end.

Definition merge_into (m c : Candidate) : Candidate :=
  {| item_id := item_id m;
     cf_score := merge_field (cf_score m) (cf_score c);
     content_score := merge_field (content_score m) (content_score c);
     social_score := merge_field (social_score m) (social_score c);
     popularity_score := popularity_score m;
     category := category m;
     feed_data := match feed_data c with
                  | Some d => Some d
                  | None => feed_data m
                  end |}.

Definition merge_step (merged : list (option string * Candidate)) (c : Candidate)
  : list (option string * Candidate) :=
  match od_get merged (item_id c) with
  | None => od_set merged (item_id c) c
  | Some m => od_set merged (item_id c) (merge_into m c)
  end.

Definition merge_candidates (candidate_lists : list (list Candidate))
  : list Candidate :=
  od_values (fold_left merge_step (concat candidate_lists) []).

(** ** The external recommender *)

#[local] Unset Elimination Schemes.
Inductive json :=
| JNull
| JBool (b : bool)
| JNum (q : Q)
| JStr (s : string)
| JArr (l : list json)
| JObj (o : list (string * json)).
#[local] Set Elimination Schemes.

(** Truth value of a decoded JSON value. *)
Definition truthy (v : json) : bool :=
  match v with
  | JNull => false
  | JBool b => b
  | JNum q => negb (Qeq_bool q 0)
  | JStr s => negb (String.eqb s "")
  | JArr l => negb (bool_decide (l = []))
  | JObj o => negb (bool_decide (o = []))
  end.

(** [it.get(k)]: [None] when the key is absent; a repeated key keeps its
    last value, as [json.loads] does. *)
Fixpoint jlookup (o : list (string * json)) (k : string) : option json :=
  match o with
  | [] => None
  | (k', v) :: r =>
      match jlookup r k with
      | Some v' => Some v'
      | None => if String.eqb k k' then Some v else None
      end
  end.

Definition jget (o : list (string * json)) (k : string) : json :=
  default JNull (jlookup o k).

Definition py_or (a b : json) : json := if truthy a then a else b.

(** [float(v)]. *)
Definition py_float (lib : Lib) (v : json) : Result Q :=
  match v with
  | JNum q => Ok q
  | JBool b => Ok (if b then 1%Q else 0%Q)
  | JStr s =>
      match float_of_str lib s with
      | Some q => Ok q
      | None => Raise ValueError
      end
  | _ => Raise TypeError
  end.

Record GorseItem := {
  g_item_id : json;
  g_cf_score : Q
}.

Definition normalize_entry (lib : Lib) (it : json) : Result GorseItem :=
  match it with
  | JObj o =>
      let iid := py_or (jget o "Id")
                   (py_or (jget o "ItemId") (py_or (jget o "item_id") (jget o "id"))) in
      let score := py_or (jget o "Score") (py_or (jget o "score") (JNum 0)) in
      try! f := py_float lib score in
      Ok {| g_item_id := iid; g_cf_score := f |}
  | _ => Ok {| g_item_id := it; g_cf_score := 0.0%Q |}
  end.

(** [resp_json] is [None] when [resp.json()] raises. *)
Definition parse_gorse_items (lib : Lib) (resp_json : option json)
  : Result (list GorseItem) :=
  match resp_json with
  | Some (JArr data) => mapM (normalize_entry lib) data
  | _ => Ok []
  end.

(** Outcome of [requests.get]: a transport failure, or a status code with the
    decoded body. *)
Inductive GorseResponse :=
| GorseDown
| GorseReply (status : Z) (body : option json).

Definition get_gorse_recommendations (lib : Lib) (resp : GorseResponse)
  : list GorseItem :=
  match resp with
  | GorseReply 200 body =>
      match parse_gorse_items lib body with
      | Ok items => items
      | Raise _ => []
      end
  | _ => []
  end.

(** ** Generation of the full recommendation list *)

Definition PRELOAD_BUFFER : nat := 100.
Definition CACHE_TTL : Z := 600.
Definition DEFAULT_PAGE_SIZE : Z := 10.
Definition MAX_PAGE_SIZE : Z := 20.
Definition MIN_PAGE_SIZE : Z := 5.

(** What a request observes of the outside world. *)
Record Env := {
  env_lib : Lib;
  env_db : DB;
  env_gorse : GorseResponse;
  env_now : Z
}.

Definition bare_candidate (iid : option string) : Candidate :=
  {| item_id := iid; cf_score := None; content_score := None;
     social_score := None; popularity_score := None; category := None;
     feed_data := None |}.

(** One turn of the loop over the items of the external recommender.
    [iid in excluded_items] raises [TypeError] on an unhashable value. *)
Definition gorse_candidate (excluded : gset string)
    (feeds_map : list (string * Feed)) (it : GorseItem) : Result (option Candidate) :=
  match g_item_id it with
  | JArr _ | JObj _ => Raise TypeError
  | JStr iid =>
      if bool_decide (iid ∈ excluded) then Ok None
      else match od_get feeds_map iid with
           | Some feed =>
               Ok (Some {| item_id := Some iid;
                           cf_score := Some (g_cf_score it);
                           content_score := None;
                           social_score := None;
                           popularity_score :=
                             Some (num_or0 (feed_decayedPopularityScore feed));
                           category := post;
                           feed_data := Some feed |})
           | None => Ok None
           end
  | _ => Ok None
  end.

Definition gorse_object_id (it : GorseItem) : option string :=
  match g_item_id it with
  | JStr s => ObjectId_of s
  | _ => None
  end.

(** [{str(feed["_id"]): feed for feed in feeds_cursor}]. *)
Definition gorse_feeds_map (db : DB) (excluded : gset string)
    (gorse_items : list GorseItem) : list (string * Feed) :=
  let gorse_object_ids := omap gorse_object_id gorse_items in
  let excluded_oids := omap ObjectId_of (elements excluded) in
  fold_left (fun m feed => od_set m (feed_id feed) feed)
    (filter (fun f => feed_id f ∈ gorse_object_ids /\ (feed_id f ∉ excluded_oids)
                      /\ feed_status f = active)
            (feeds_col db))
    [].

Definition related_candidates (db : DB) (user_id : string) (excluded : gset string)
  : list Candidate :=
  omap (fun r =>
          let rel_item_id := related_item_id r in
          if in_set rel_item_id excluded then None
          else Some {| item_id := rel_item_id;
                       cf_score := Some (num_or0 (related_score r));
                       content_score := None; social_score := None;
                       popularity_score := None; category := None;
                       feed_data := None |})
    (take 20
       (sorted_desc (fun a b => optQ_le (related_score a) (related_score b))
          (filter (fun r => related_user_id r = Some user_id) (related_items_col db)))).

Definition social_candidates (db : DB) (user_id : string) (excluded : gset string)
  : list Candidate :=
  omap (fun s : string * Q =>
          if bool_decide (s.1 ∈ excluded) then None
          else Some {| item_id := Some s.1;
                       cf_score := None; content_score := None;
                       social_score := Some s.2;
                       popularity_score := None; category := None;
                       feed_data := None |})
    (candidate_social_boost db user_id).

Definition generate_recommendations_for_user (env : Env) (user_id : string)
    (excluded_items : gset string) : Result (list Scored * list (string * Feed)) :=
  let db := env_db env in
  let gorse_items := get_gorse_recommendations (env_lib env) (env_gorse env) in
  let feeds_map := gorse_feeds_map db excluded_items gorse_items in
  try! from_gorse := mapM (gorse_candidate excluded_items feeds_map) gorse_items in
  let cands :=
    candidate_followed_users db user_id 50
    ++ candidate_interest db user_id 30
    ++ omap id from_gorse
    ++ candidate_trending db 20
    ++ related_candidates db user_id excluded_items
    ++ social_candidates db user_id excluded_items in
  let merged := merge_candidates [cands] in
  try! recommendations :=
    compute_hybrid (env_lib env) db (env_now env) user_id merged in
  Ok (recommendations, feeds_map).

(** ** The annotated recommendations served to the caller *)

Inductive RecType := Popular | Personalized.

Record Metadata := {
  md_text : string;
  md_title : option string;
  md_likes : Z;
  md_comments : Z;
  md_created_at : option datetime
}.

Record Recommendation := {
  rec_item_id : option string;
  rec_score : Q;
  rec_category : string;
  friend_liked_by : list string;
  rec_popularity : Q;
  recommendation_type : RecType;
  metadata : option Metadata
}.

(** ** The session cache *)

(** An entry written by [SETEX]: the stored list and the instant at which it
    expires. *)
Record CacheEntry := {
  entry_value : list Recommendation;
  entry_expires : Z
}.

(** The Redis server as seen through the client: [conn_up] is false when
    every command raises a connection error. *)
Record RedisClient := {
  conn_up : bool;
  conn_data : gmap string CacheEntry
}.

(** The module-level globals [REDIS_AVAILABLE] and [redis_client]. *)
Record Cache := {
  REDIS_AVAILABLE : bool;
  redis_client : option RedisClient
}.

(** [redis_client.setex(key, ttl, value)]; [None] is a raised exception. *)
Definition redis_setex (c : RedisClient) (now : Z) (key : string) (ttl : Z)
    (v : list Recommendation) : option RedisClient :=
  if conn_up c
  then Some {| conn_up := true;
               conn_data :=
                 <[key := {| entry_value := v;
                             entry_expires := now + ttl * 1000000 |}]> (conn_data c) |}
  else None.

(** [redis_client.get(key)]: a read; the outer [None] is a raised exception,
    the inner one an absent or expired key. *)
Definition redis_get (c : RedisClient) (now : Z) (key : string)
  : option (option (list Recommendation)) :=
  if conn_up c
  then Some (match conn_data c !! key with
             | Some e => if now <? entry_expires e then Some (entry_value e) else None
             | None => None
             end)
  else None.

Definition get_cache_key (user_id : string) (session_id : option string) : string :=
  match session_id with
  | Some (String _ _ as sid) => "rec_session:" +:+ user_id +:+ ":" +:+ sid
  | _ => "rec_latest:" +:+ user_id
  end.

(** [session_id or hashlib.md5(...).hexdigest()[:16]]. *)
Definition session_or_new (lib : Lib) (now : Z) (user_id : string)
    (session_id : option string) : string :=
  match session_id with
  | Some (String _ _ as sid) => sid
  | _ => md5_token lib user_id now
  end.

Definition cache_recommendations (lib : Lib) (now : Z) (cache : Cache)
    (user_id : string) (recommendations : list Recommendation)
    (session_id : option string) : option string * Cache :=
  match REDIS_AVAILABLE cache, redis_client cache with
  | true, Some client =>
      match redis_setex client now (get_cache_key user_id session_id) CACHE_TTL
              recommendations with
      | Some client' =>
          (Some (session_or_new lib now user_id session_id),
           {| REDIS_AVAILABLE := true; redis_client := Some client' |})
      | None => (None, cache)
      end
  | _, _ => (Some (session_or_new lib now user_id session_id), cache)
  end.

Definition get_cached_recommendations (now : Z) (cache : Cache)
    (user_id : string) (session_id : option string) : option (list Recommendation) :=
  match REDIS_AVAILABLE cache, redis_client cache with
  | true, Some client =>
      match redis_get client now (get_cache_key user_id session_id) with
      | Some (Some cached) => Some cached
      | _ => None
      end
  | _, _ => None
  end.

(** ** The personalization mixer *)

(** A scored entry after [rec["is_popular"] = ...]. *)
Record Categorized := {
  base : Scored;
  is_popular : bool
}.

Definition categorize (rec : Scored) : Categorized :=
  {| base := rec; is_popular := negb (Qle_bool (popularity rec) 0.5) |}.

#[global] Instance datetime_eq_dec : EqDecision datetime.
Proof. solve_decision. Defined.

#[global] Instance TsValue_eq_dec : EqDecision TsValue.
Proof. solve_decision. Defined.

#[global] Instance Q_eq_dec : EqDecision Q.
Proof. solve_decision. Defined.

#[global] Instance Feed_eq_dec : EqDecision Feed.
Proof. solve_decision. Defined.

#[global] Instance Scored_eq_dec : EqDecision Scored.
Proof. solve_decision. Defined.

#[global] Instance Categorized_eq_dec : EqDecision Categorized.
Proof. solve_decision. Defined.

(** Equality of dicts ([==]): numbers compare by value. *)
Definition optQ_eqb (a b : option Q) : bool :=
  match a, b with
  | Some x, Some y => Qeq_bool x y
  | None, None => true
  | _, _ => false
  end.

Definition feed_eqb (a b : Feed) : bool :=
  bool_decide (feed_id a = feed_id b)
  && bool_decide (feed_userId a = feed_userId b)
  && bool_decide (feed_status a = feed_status b)
  && bool_decide (feed_hashtags a = feed_hashtags b)
  && bool_decide (feed_createdAt a = feed_createdAt b)
  && optQ_eqb (feed_decayedPopularityScore a) (feed_decayedPopularityScore b)
  && bool_decide (feed_text a = feed_text b)
  && bool_decide (feed_title a = feed_title b)
  && bool_decide (feed_likeCount a = feed_likeCount b)
  && bool_decide (feed_commentCount a = feed_commentCount b).

Definition scored_eqb (a b : Scored) : bool :=
  bool_decide (s_item_id a = s_item_id b)
  && Qeq_bool (score a) (score b)
  && bool_decide (s_category a = s_category b)
  && Qeq_bool (popularity a) (popularity b)
  && match s_feed_data a, s_feed_data b with
     | Some x, Some y => feed_eqb x y
     | None, None => true
     | _, _ => false
     end.

Definition cat_eqb (a b : Categorized) : bool :=
  scored_eqb (base a) (base b) && Bool.eqb (is_popular a) (is_popular b).

(** [r in l]. *)
Definition py_in (r : Categorized) (l : list Categorized) : bool :=
  existsb (cat_eqb r) l.

(** [l[:n]]; a negative [n] counts from the end. *)
Definition py_prefix {A} (l : list A) (n : Z) : list A :=
  if 0 <=? n then take (Z.to_nat n) l
  else take (Z.to_nat (Z.of_nat (length l) + n)) l.

Definition total_needed_of (categorized_recs : list Categorized) : Z :=
  Z.of_nat (Nat.min (length categorized_recs) PRELOAD_BUFFER).

Definition num_personalized_of (total_needed : Z) (personalized_ratio : Q) : Z :=
  py_int (inject_Z total_needed * personalized_ratio).

(** Lines 652-673 of [recommend]: split, take, shuffle, fill with the
    remainder. *)
Definition mix (rnd : nat -> nat) (personalized_ratio : Q)
    (categorized_recs : list Categorized) : list Categorized :=
  let popular_recs := filter (fun r => is_popular r = true) categorized_recs in
  let personalized_recs := filter (fun r => is_popular r <> true) categorized_recs in
  let total_needed := total_needed_of categorized_recs in
  let num_personalized := num_personalized_of total_needed personalized_ratio in
  let num_popular := total_needed - num_personalized in
  let mixed_recommendations :=
    shuffle rnd (py_prefix personalized_recs num_personalized
                 ++ py_prefix popular_recs num_popular) in
  if Z.of_nat (length mixed_recommendations) <? total_needed then
    let remaining :=
      filter (fun r => py_in r mixed_recommendations = false) categorized_recs in
    mixed_recommendations
    ++ py_prefix remaining (total_needed - Z.of_nat (length mixed_recommendations))
  else mixed_recommendations.

(** ** The request handler *)

(** The query parameters after [int(...)] / [float(...)], defaults applied. *)
Record Request := {
  req_page : Z;
  req_limit : Z;
  req_session_id : option string;
  req_refresh : bool;
  req_personalized_ratio : Q
}.

Inductive CacheFlag := hit | miss.

Record Stats := {
  total_popular : nat;
  total_personalized : nat;
  filtered_already_liked : nat;
  personalization_ratio : Q
}.

Record Page := {
  resp_user : string;
  resp_page : Z;
  resp_limit : Z;
  resp_session_id : option string;
  resp_total : nat;
  resp_has_more : bool;
  resp_results_count : nat;
  resp_recommendations : list Recommendation;
  resp_cache : CacheFlag;
  resp_stats : option Stats
}.

(** A 200 answer, or the 500 answer of the top-level [except]. *)
Inductive Response :=
| Success (p : Page)
| Failure (e : PyErr).

Definition clamp_page (page : Z) : Z := if page <? 1 then 1 else page.

Definition clamp_limit (limit : Z) : Z :=
  let limit := if limit <? MIN_PAGE_SIZE then MIN_PAGE_SIZE else limit in
  if MAX_PAGE_SIZE <? limit then MAX_PAGE_SIZE else limit.

(** [max(0.0, min(1.0, personalized_ratio))]. *)
Definition clamp_ratio (r : Q) : Q := py_max 0 (py_min 1 r).

(** [str(like.get("targetId") or like.get("feedId"))] when one of them is set. *)
Definition like_target (l : Like) : option string :=
  match like_targetId l with
  | Some t => Some t
  | None => like_feedId l
  end.

Definition user_liked_items_of (db : DB) (user_id : string) : gset string :=
  match ObjectId_of user_id with
  | None => ∅
  | Some user_oid =>
      list_to_set
        (omap like_target (filter (fun l => like_userId l = Some user_oid) (likes_col db)))
  end.

(** [friend_map.setdefault(feed_id, []).append(user_who_liked)]. *)
Definition friend_map_of (db : DB) (user_id : string) : list (string * list string) :=
  match ObjectId_of user_id with
  | None => []
  | Some user_oid =>
      match following db user_oid with
      | [] => []
      | friends =>
          fold_left
            (fun m l =>
               let feed_id := str_oid (like_target l) in
               od_set m feed_id (default [] (od_get m feed_id) ++ [str_oid (like_userId l)]))
            (filter (fun l => like_userId l ∈ friends) (likes_col db)) []
      end
  end.

(** [feed["createdAt"].isoformat() if feed.get("createdAt") else None]: a
    string has no [isoformat]. *)
Definition created_at_of (feed : Feed) : Result (option datetime) :=
  match feed_createdAt feed with
  | None => Ok None
  | Some (TsStr EmptyString) => Ok None
  | Some (TsStr _) => Raise AttributeError
  | Some (TsDatetime d) => Ok (Some d)
  end.

Definition od_get_opt {V} (m : list (string * V)) (iid : option string) : option V :=
  iid ≫= od_get m.

Definition annotate (feeds_map : list (string * Feed))
    (friend_map : list (string * list string)) (rec : Categorized)
  : Result Recommendation :=
  let iid := s_item_id (base rec) in
  let feed :=
    match s_feed_data (base rec) with
    | Some f => Some f
    | None => od_get_opt feeds_map iid
    end in
  try! md :=
    match feed with
    | Some f =>
        try! created := created_at_of f in
        Ok (Some {| md_text := String.substring 0 200 (default ""%string (feed_text f));
                    md_title := feed_title f;
                    md_likes := default 0 (feed_likeCount f);
                    md_comments := default 0 (feed_commentCount f);
                    md_created_at := created |})
    | None => Ok None
    end in
  Ok {| rec_item_id := iid;
        rec_score := score (base rec);
        rec_category := s_category (base rec);
        friend_liked_by := default [] (od_get_opt friend_map iid);
        rec_popularity := popularity (base rec);
        recommendation_type := if is_popular rec then Popular else Personalized;
        metadata := md |}.

(** The "generate fresh" part of [recommend], up to [full_list]. *)
Definition build_full_list (env : Env) (user_id : string) (personalized_ratio : Q)
  : Result (list Recommendation * list Scored * gset string) :=
  let db := env_db env in
  let seen_items := get_user_seen_items db user_id in
  let created_items := get_user_created_items db user_id in
  let excluded_items := seen_items ∪ created_items in
  let user_liked_items := user_liked_items_of db user_id in
  try! generated := generate_recommendations_for_user env user_id excluded_items in
  let '(recommendations, feeds_map) := generated in
  let categorized_recs := categorize <$> recommendations in
  let mixed_recommendations :=
    mix (rnd (env_lib env)) personalized_ratio categorized_recs in
  let friend_map := friend_map_of db user_id in
  try! full_list :=
    mapM (annotate feeds_map friend_map)
      (filter (fun r => in_set (s_item_id (base r)) user_liked_items = false)
              mixed_recommendations) in
  Ok (full_list, recommendations, user_liked_items).

Definition is_type (t : RecType) (r : Recommendation) : bool :=
  match t, recommendation_type r with
  | Popular, Popular | Personalized, Personalized => true
  | _, _ => false
  end.

Definition regenerate (env : Env) (cache : Cache) (user_id : string)
    (page limit : Z) (session_id : option string) (personalized_ratio : Q)
  : Response * Cache :=
  let start := (page - 1) * limit in
  let stop := start + limit in
  match build_full_list env user_id personalized_ratio with
  | Raise e => (Failure e, cache)
  | Ok (full_list, recommendations, user_liked_items) =>
      let '(new_session_id, cache') :=
        cache_recommendations (env_lib env) (env_now env) cache user_id full_list
          session_id in
      let total_items := length full_list in
      let paginated_items := py_slice full_list start stop in
      let stats :=
        {| total_popular := length (List.filter (is_type Popular) full_list);
           total_personalized := length (List.filter (is_type Personalized) full_list);
           filtered_already_liked :=
             size (user_liked_items ∩ list_to_set (omap s_item_id recommendations));
           personalization_ratio := personalized_ratio |} in
      (Success {| resp_user := user_id;
                  resp_page := page;
                  resp_limit := limit;
                  resp_session_id := new_session_id;
                  resp_total := total_items;
                  resp_has_more := stop <? Z.of_nat total_items;
                  resp_results_count := length paginated_items;
                  resp_recommendations := paginated_items;
                  resp_cache := miss;
                  resp_stats := Some stats |},
       cache')
  end.

(** The cache check of [recommend]: [Some page] when the cached list is
    served, [None] when the handler falls through to regeneration. *)
Definition serve_cached (user_id : string) (page limit : Z) (session_id : option string)
    (cached : list Recommendation) : option Page :=
  let start := (page - 1) * limit in
  let stop := start + limit in
  match cached with
  | [] => None
  | _ =>
      let total_items := length cached in
      let paginated_items := py_slice cached start stop in
      if (Z.of_nat total_items <=? stop) && (total_items <? PRELOAD_BUFFER)%nat
      then None
      else Some {| resp_user := user_id;
                   resp_page := page;
                   resp_limit := limit;
                   resp_session_id := session_id;
                   resp_total := total_items;
                   resp_has_more := stop <? Z.of_nat total_items;
                   resp_results_count := length paginated_items;
                   resp_recommendations := paginated_items;
                   resp_cache := hit;
                   resp_stats := None |}
  end.

Definition recommend (env : Env) (cache : Cache) (user_id : string) (req : Request)
  : Response * Cache :=
  let page := clamp_page (req_page req) in
  let limit := clamp_limit (req_limit req) in
  let session_id := req_session_id req in
  let personalized_ratio := clamp_ratio (req_personalized_ratio req) in
  let from_cache :=
    if truthy_str session_id && negb (req_refresh req) then
      match get_cached_recommendations (env_now env) cache user_id session_id with
      | Some cached => serve_cached user_id page limit session_id cached
      | None => None
      end
    else None in
  match from_cache with
  | Some p => (Success p, cache)
  | None => regenerate env cache user_id page limit session_id personalized_ratio
  end.

(** ** States of the cache store *)

(** Degraded mode: the flag set at startup is off, or there is no client. *)
Definition degraded (cache : Cache) : Prop :=
  REDIS_AVAILABLE cache = false \/ redis_client cache = None.

(** The store went away after a successful startup: the flag is still on and
    every command of the client raises. *)
Definition lost (cache : Cache) : Prop :=
  exists client, REDIS_AVAILABLE cache = true
                 /\ redis_client cache = Some client /\ conn_up client = false.

Definition unreachable (cache : Cache) : Prop := degraded cache \/ lost cache.

(** What a regeneration answers for the list produced by the pipeline. *)
Definition answers_fresh (env : Env) (user_id : string) (req : Request)
    (resp : Response) : Prop :=
  let page := clamp_page (req_page req) in
  let limit := clamp_limit (req_limit req) in
  match build_full_list env user_id (clamp_ratio (req_personalized_ratio req)) with
  | Ok (full_list, _, _) =>
      exists p : Page,
        resp = Success p
        /\ resp_cache p = miss
        /\ resp_total p = length full_list
        /\ resp_recommendations p
           = py_slice full_list ((page - 1) * limit) ((page - 1) * limit + limit)
  | Raise e => resp = Failure e
  end.

(** ** Vocabulary for the merge *)

(** The candidates of [cs] that carry the identifier [k], in order. *)
Definition occurrences (k : option string) (cs : list Candidate) : list Candidate :=
  filter (fun c => item_id c = k) cs.

(** The values of the field [f] supplied by the occurrences of [k]. *)
Definition supplied (f : Candidate -> option Q) (k : option string)
    (cs : list Candidate) : list Q :=
  omap f (occurrences k cs).

(** The three score fields combined by the merge. *)
Definition score_fields : list (Candidate -> option Q) :=
  [cf_score; content_score; social_score].

Definition nonneg (o : option Q) : Prop :=
  match o with
  | Some x => (0 <= x)%Q
  | None => True
  end.

Definition nonneg_scores (c : Candidate) : Prop :=
  nonneg (cf_score c) /\ nonneg (content_score c) /\ nonneg (social_score c).

(** [o] is absent when no value was supplied, and otherwise the maximum of the
    supplied values (numbers compare by value). *)
Definition is_max_of (o : option Q) (vals : list Q) : Prop :=
  match o with
  | None => vals = []
  | Some v => (forall x, x ∈ vals -> (x <= v)%Q) /\ (exists x, x ∈ vals /\ (x == v)%Q)
  end.

(** Two optional scores with the same presence and value. *)
Definition same_score (a b : option Q) : Prop :=
  match a, b with
  | Some x, Some y => (x == y)%Q
  | None, None => True
  | _, _ => False
  end.

(** The state of the loop of [merge_candidates] after the candidates [pre]. *)
Definition merged_ok (pre : list Candidate) (acc : list (option string * Candidate))
  : Prop :=
  NoDup (od_keys acc)
  /\ (forall k, k ∈ od_keys acc <-> k ∈ item_id <$> pre)
  /\ (forall k m, od_get acc k = Some m ->
        item_id m = k
        /\ (forall f, f ∈ score_fields -> is_max_of (f m) (supplied f k pre))
        /\ feed_data m = last (omap feed_data (occurrences k pre))).

(** The identifier of a categorized entry. *)
Definition cat_id (r : Categorized) : option string := s_item_id (base r).

(** ** Inputs on which scoring raises *)

(** The creation timestamp of the document is timezone-aware, as stored or
    once parsed: the subtraction from [utcnow()] raises [TypeError]. *)
Definition aware_timestamp (lib : Lib) (item_doc : option Feed) : Prop :=
  match doc_createdAt item_doc with
  | Some (TsDatetime (Aware _)) => True
  | Some (TsStr (String _ _ as s)) =>
      match fromisoformat lib (replace_Z s) with
      | Some (Aware _) => True
      | _ => False
      end
  | _ => False
  end.


(** ** Concrete data used by the examples *)

(** A library instance for the examples: the parsers accept no string (the
    examples only hand them text that is neither a timestamp nor a number),
    the session token is a fixed 16-digit string and every random draw is 0. *)
Definition lib_demo : Lib :=
  {| fromisoformat := fun _ => None;
     float_of_str := fun _ => None;
     md5_token := fun _ _ => "0123456789abcdef"%string;
     rnd := fun _ => O |}.

Definition reader : string := "aaaaaaaaaaaaaaaaaaaaaaaa".
Definition author : string := "bbbbbbbbbbbbbbbbbbbbbbbb".
Definition post_1 : string := "cccccccccccccccccccccccc".

(** 14 November 2023, 22:13:20 UTC, in microseconds. *)
Definition demo_now : Z := 1700000000000000.

Definition demo_feed (fid : string) (owner : string) (created : option TsValue)
    (pop : option Q) : Feed :=
  {| feed_id := fid;
     feed_userId := Some owner;
     feed_status := active;
     feed_hashtags := [];
     feed_createdAt := created;
     feed_decayedPopularityScore := pop;
     feed_text := Some "hello"%string;
     feed_title := None;
     feed_likeCount := Some 3;
     feed_commentCount := None |}.


(** The reader follows the author; the author published [post_1] half an hour
    before [demo_now]; the reader commented on it. *)
Definition demo_post : Feed :=
  demo_feed post_1 author
    (Some (TsDatetime (Naive (demo_now - 1800000000)))) (Some 0.4%Q).

Definition demo_db : DB :=
  {| feeds_col := [demo_post];
     likes_col := [];
     comments_col := [{| comment_userId := Some reader; comment_feedId := Some post_1 |}];
     saved_feeds_col := [];
     reposts_col := [];
     follows_col := [{| follow_followerId := Some reader;
                        follow_followingId := Some author;
                        follow_status := active |}];
     watch_col := [];
     interests_col := [];
     explore_feeds_col := [];
     related_items_col := [] |}.

Definition demo_env : Env :=
  {| env_lib := lib_demo; env_db := demo_db; env_gorse := GorseDown;
     env_now := demo_now |}.


(** A cached list of [n] recommendations under the session ["s1"]. *)
Definition demo_rec (i : nat) : Recommendation :=
  {| rec_item_id := Some (String (ascii_of_nat (65 + i)) EmptyString);
     rec_score := 0.5%Q;
     rec_category := "post";
     friend_liked_by := [];
     rec_popularity := 0%Q;
     recommendation_type := Personalized;
     metadata := None |}.

Definition demo_cached (n : nat) : list Recommendation := demo_rec <$> seq 0 n.

Definition demo_session : option string := Some "s1"%string.

Definition demo_cache (n : nat) : Cache :=
  {| REDIS_AVAILABLE := true;
     redis_client :=
       Some {| conn_up := true;
               conn_data :=
                 {[ get_cache_key reader demo_session :=
                      {| entry_value := demo_cached n;
                         entry_expires := demo_now + 60000000 |} ]} |} |}.

(** A client created at startup whose server has since become unreachable. *)
Definition lost_cache : Cache :=
  {| REDIS_AVAILABLE := true;
     redis_client := Some {| conn_up := false; conn_data := ∅ |} |}.

(** The cache marked unavailable at startup. *)
Definition degraded_cache : Cache :=
  {| REDIS_AVAILABLE := false; redis_client := None |}.

Definition demo_request (page : Z) : Request :=
  {| req_page := page;
     req_limit := 10;
     req_session_id := demo_session;
     req_refresh := false;
     req_personalized_ratio := 0.7%Q |}.

Definition post_2 : string := "dddddddddddddddddddddddd".

Definition demo_candidate (iid : string) (cf content : option Q) (feed : option Feed)
  : Candidate :=
  {| item_id := Some iid; cf_score := cf; content_score := content;
     social_score := None; popularity_score := None; category := None;
     feed_data := feed |}.

Definition older_post : Feed :=
  demo_feed post_1 author (Some (TsDatetime (Naive (demo_now - 7200000000)))) (Some 0.4%Q).

(** Two sources naming [post_1] three times and [post_2] once. *)
Definition demo_lists : list (list Candidate) :=
  [[demo_candidate post_1 (Some 0.3%Q) None None;
    demo_candidate post_2 None (Some 0.5%Q) None];
   [demo_candidate post_1 (Some 0.8%Q) None (Some older_post);
    demo_candidate post_1 None (Some 0.9%Q) (Some demo_post)]].





(** * Further functions of the application *)

(** ** Startup of the cache connection *)

(** The loop of [connect_redis].  [server k] is what attempt [k] finds:
    [Some data] when the ping succeeds on a store holding [data], [None] when
    it raises [ConnectionError].  [todo] attempts remain; [slept] counts the
    calls of [time.sleep(2)]. *)
Fixpoint connect_loop (server : nat -> option (gmap string CacheEntry))
    (max_retries attempt todo slept : nat) : bool * Cache * nat :=
  match todo with
  | O => (false, {| REDIS_AVAILABLE := false; redis_client := None |}, slept)
  | S todo' =>
      match server attempt with
      | Some data =>
          (true,
           {| REDIS_AVAILABLE := true;
              redis_client := Some {| conn_up := true; conn_data := data |} |},
           slept)
      | None =>
          connect_loop server max_retries (S attempt) todo'
            (if (attempt <? max_retries - 1)%nat then S slept else slept)
      end
  end.

(** [connect_redis(max_retries)]: the flag it returns, the globals it leaves
    and the number of sleeps. *)
Definition connect_redis (server : nat -> option (gmap string CacheEntry))
    (max_retries : nat) : bool * Cache * nat :=
  connect_loop server max_retries 0 max_retries 0.

(** ** The fixed-ratio routes *)

(** [request.args["personalized_ratio"] = ...] on a copy of the arguments. *)
Definition with_ratio (req : Request) (ratio : Q) : Request :=
  {| req_page := req_page req;
     req_limit := req_limit req;
     req_session_id := req_session_id req;
     req_refresh := req_refresh req;
     req_personalized_ratio := ratio |}.

Definition recommend_personalized (env : Env) (cache : Cache) (user_id : string)
    (req : Request) : Response * Cache :=
  recommend env cache user_id (with_ratio req 0.8).

Definition recommend_popular (env : Env) (cache : Cache) (user_id : string)
    (req : Request) : Response * Cache :=
  recommend env cache user_id (with_ratio req 0.2).

Definition recommend_balanced (env : Env) (cache : Cache) (user_id : string)
    (req : Request) : Response * Cache :=
  recommend env cache user_id (with_ratio req 0.5).

(** ** Invalidation of a user's cache *)

(** [invalidate_user_cache]: every key returned by
    [scan_iter(match="rec_session:<user>:*")] is deleted, then the per-user
    key.  [glob pattern key] is the key matcher of the Redis server; an
    exception (the server is unreachable) leaves everything as it was. *)
Definition invalidate_user_cache (glob : string -> string -> bool) (cache : Cache)
    (user_id : string) : Cache :=
  match REDIS_AVAILABLE cache, redis_client cache with
  | true, Some client =>
      if conn_up client then
        let pattern := "rec_session:" +:+ user_id +:+ ":*" in
        let scanned :=
          filter (fun key => glob pattern key = true) (map_to_list (conn_data client)).*1 in
        let after_scan := fold_left (fun d key => delete key d) scanned (conn_data client) in
        {| REDIS_AVAILABLE := true;
           redis_client :=
             Some {| conn_up := true;
                     conn_data := delete ("rec_latest:" +:+ user_id) after_scan |} |}
      else cache
  | _, _ => cache
  end.

(** ** Vocabulary for the further properties *)

(** The string holds no [':']. *)
Fixpoint colon_free (s : string) : Prop :=
  match s with
  | EmptyString => True
  | String c r => c <> ":"%char /\ colon_free r
  end.

(** The cache answers commands: the flag is on and the client is connected. *)
Definition reachable (cache : Cache) : Prop :=
  exists client, REDIS_AVAILABLE cache = true
                 /\ redis_client cache = Some client /\ conn_up client = true.

(** [p] is page [page] at [limit] items per page of the list [l]. *)
Definition page_of (l : list Recommendation) (page limit : Z) (p : Page) : Prop :=
  resp_page p = page
  /\ resp_limit p = limit
  /\ resp_total p = length l
  /\ resp_recommendations p = py_slice l ((page - 1) * limit) ((page - 1) * limit + limit)
  /\ resp_results_count p = length (resp_recommendations p)
  /\ resp_has_more p = ((page - 1) * limit + limit <? Z.of_nat (length l)).

(** The list built by a regeneration, empty when it raises. *)
Definition full_list_of (env : Env) (user_id : string) (ratio : Q)
  : list Recommendation :=
  match build_full_list env user_id ratio with
  | Ok (full_list, _, _) => full_list
  | Raise _ => []
  end.

(** The distinct elements of a list, in the order of their first occurrence. *)
Definition first_seen {K} `{EqDecision K} (ks : list K) : list K :=
  fold_left (fun acc k => if decide (k ∈ acc) then acc else acc ++ [k]) ks [].

(** A list of scored entries in descending order of score. *)
Fixpoint descending (l : list Scored) : Prop :=
  match l with
  | [] => True
  | a :: r => Forall (fun b => (score b <= score a)%Q) r /\ descending r
  end.

Definition by_score (a b : Scored) : bool := Qle_bool (score a) (score b).

(** The entries whose score equals [q]. *)
Definition with_score (q : Q) (l : list Scored) : list Scored :=
  filter (fun s => Qeq_bool (score s) q = true) l.

(** The accounts a user actively follows; none for an identifier that is not
    an ObjectId. *)
Definition friends_of (db : DB) (user_id : string) : list (option string) :=
  match ObjectId_of user_id with
  | Some user_oid => following db user_oid
  | None => []
  end.







(** The request for page [i] of a session, with the default ratio. *)
Definition page_request (session_id : option string) (limit : Z) (i : nat) : Request :=
  {| req_page := Z.of_nat i;
     req_limit := limit;
     req_session_id := session_id;
     req_refresh := false;
     req_personalized_ratio := 0.7%Q |}.

(** The recommendations of an answer; none for an error. *)
Definition recommendations_of (resp : Response) : list Recommendation :=
  match resp with
  | Success p => resp_recommendations p
  | Failure _ => []
  end.

(** ** Further concrete data *)

(** A first request: no session id yet. *)
Definition first_request : Request :=
  {| req_page := 1; req_limit := 10; req_session_id := None;
     req_refresh := false; req_personalized_ratio := 0.7%Q |}.

(** A store in which the author, followed by the reader, has published eight
    posts, the [i]-th of them [i] hours before [demo_now]. *)
Definition busy_post (i : nat) : Feed :=
  demo_feed (String (ascii_of_nat (48 + i)) "eeeeeeeeeeeeeeeeeeeeeee") author
    (Some (TsDatetime (Naive (demo_now - Z.of_nat i * 3600000000))))
    (Some (if (i <? 3)%nat then 0.9%Q else 0.1%Q)).

Definition busy_db : DB :=
  {| feeds_col := busy_post <$> seq 0 8;
     likes_col := [];
     comments_col := [];
     saved_feeds_col := [];
     reposts_col := [];
     follows_col := [{| follow_followerId := Some reader;
                        follow_followingId := Some author;
                        follow_status := active |}];
     watch_col := [];
     interests_col := [];
     explore_feeds_col := [];
     related_items_col := [] |}.

Definition busy_env : Env :=
  {| env_lib := lib_demo; env_db := busy_db; env_gorse := GorseDown;
     env_now := demo_now |}.

Definition short_request (page : Z) : Request :=
  {| req_page := page;
     req_limit := 5;
     req_session_id := demo_session;
     req_refresh := false;
     req_personalized_ratio := 0.7%Q |}.

(** The same store after the reader liked the newest post (the like names
    it under [targetId] only). *)
Definition liking_db : DB :=
  {| feeds_col := feeds_col busy_db;
     likes_col := [{| like_userId := Some reader;
                      like_feedId := None;
                      like_targetId := Some (feed_id (busy_post 0)) |}];
     comments_col := [];
     saved_feeds_col := [];
     reposts_col := [];
     follows_col := follows_col busy_db;
     watch_col := [];
     interests_col := [];
     explore_feeds_col := [];
     related_items_col := [] |}.

Definition liking_env : Env :=
  {| env_lib := lib_demo; env_db := liking_db; env_gorse := GorseDown;
     env_now := demo_now |}.




(** A matcher for patterns that end in a star and hold no other special
    character: the key starts with what precedes the star. *)
Definition star_suffix_glob (pattern key : string) : bool :=
  String.prefix (String.substring 0 (String.length pattern - 1) pattern) key.

(** A cache holding three lists: two sessions of the reader and one of the
    author. *)
Definition shared_cache : Cache :=
  {| REDIS_AVAILABLE := true;
     redis_client :=
       Some {| conn_up := true;
               conn_data :=
                 {[ get_cache_key reader (Some "s1"%string) :=
                      {| entry_value := demo_cached 3; entry_expires := demo_now + 60000000 |};
                    get_cache_key reader None :=
                      {| entry_value := demo_cached 4; entry_expires := demo_now + 60000000 |};
                    get_cache_key author (Some "s1"%string) :=
                      {| entry_value := demo_cached 5; entry_expires := demo_now + 60000000 |} ]} |} |}.

(** The store after the author liked the second newest post. *)
Definition social_db : DB :=
  {| feeds_col := feeds_col busy_db;
     likes_col := [{| like_userId := Some author;
                      like_feedId := Some (feed_id (busy_post 1));
                      like_targetId := None |}];
     comments_col := [];
     saved_feeds_col := [];
     reposts_col := [];
     follows_col := follows_col busy_db;
     watch_col := [];
     interests_col := [];
     explore_feeds_col := [];
     related_items_col := [] |}.

Definition social_env : Env :=
  {| env_lib := lib_demo; env_db := social_db; env_gorse := GorseDown;
     env_now := demo_now |}.

(** * Properties *)

(** ** Generic facts about the Python idioms *)

Lemma bind_Ok {A B} (m : Result A) (k : A -> Result B) (b : B) :
  bind m k = Ok b -> exists a, m = Ok a /\ k a = Ok b.
Proof. destruct m as [a|e]; simpl; [eauto | discriminate]. Qed.

Lemma mapM_Forall2 {A B} (f : A -> Result B) (l : list A) (l' : list B) :
  mapM f l = Ok l' -> Forall2 (fun x y => f x = Ok y) l l'.
Proof.
  revert l'. induction l as [|x l IH]; simpl; intros l' H.
  - injection H as <-. constructor.
  - apply bind_Ok in H as (y & Hy & H).
    apply bind_Ok in H as (ys & Hys & H).
    injection H as <-. constructor; auto.
Qed.


Lemma insert_desc_perm {A} (le : A -> A -> bool) (x : A) (l : list A) :
  insert_desc le x l ≡ₚ x :: l.
Proof.
  induction l as [|y l IH]; simpl; [done|].
  destruct (le y x); [done|].
  rewrite IH. apply Permutation_swap.
Qed.

Lemma sorted_desc_perm {A} (le : A -> A -> bool) (l : list A) :
  sorted_desc le l ≡ₚ l.
Proof.
  induction l as [|x l IH]; simpl; [done|].
  unfold sorted_desc in *. simpl.
  rewrite insert_desc_perm. by rewrite IH.
Qed.

(** ** Rounding *)




(** ** Recency *)







(** ** Hybrid scoring *)


Lemma score_candidate_inv (lib : Lib) (db : DB) (now : Z) (user_id : string)
    (social_map : list (string * Q)) (c : Candidate) (s : Scored) :
  score_candidate lib db now user_id social_map c = Ok s ->
  exists recency,
    compute_recency_score lib now (resolve_item db c).1 = Ok recency
    /\ s = {| s_item_id := item_id c;
              score := round6 (hybrid_formula (num_or0 (cf_score c))
                                 (num_or0 (content_score c)) recency
                                 (resolve_item db c).2
                                 (friend_boost_of social_map (item_id c))
                                 (watch_boost_of db user_id (item_id c)));
              s_category := default "post"%string (category c);
              popularity := (resolve_item db c).2;
              s_feed_data := (resolve_item db c).1 |}.
Proof.
  unfold score_candidate. destruct (resolve_item db c) as [item_doc pop]. simpl.
  intros H. apply bind_Ok in H as (recency & Hr & H). injection H as <-. eauto.
Qed.

Lemma compute_hybrid_inv (lib : Lib) (db : DB) (now : Z) (user_id : string)
    (candidates : list Candidate) (scored : list Scored) :
  compute_hybrid lib db now user_id candidates = Ok scored ->
  exists unsorted,
    Forall2 (fun c s => score_candidate lib db now user_id
                          (candidate_social_boost db user_id) c = Ok s)
      candidates unsorted
    /\ scored = sorted_desc (fun a b => Qle_bool (score a) (score b)) unsorted.
Proof.
  unfold compute_hybrid. intros H.
  apply bind_Ok in H as (unsorted & Hm & H). injection H as <-.
  eauto using mapM_Forall2.
Qed.



Lemma recency_of_age_range (age : Q) :
  (0.2 <= recency_of_age age <= 1)%Q.
Proof.
  unfold recency_of_age.
  destruct (Qlt_le_dec age 1), (Qlt_le_dec age 24), (Qlt_le_dec age 72);
    split; discriminate.
Qed.

Lemma compute_recency_score_defined (lib : Lib) (now : Z) (item_doc : option Feed) :
  ~ aware_timestamp lib item_doc ->
  exists q, compute_recency_score lib now item_doc = Ok q /\ (0.2 <= q <= 1)%Q.
Proof.
  unfold aware_timestamp, compute_recency_score. intros H.
  assert (H02 : (0.2 <= 0.2 <= 1)%Q) by (split; discriminate).
  destruct (doc_createdAt item_doc) as [[[us|us]|[|a s]]|]; simpl; eauto.
  - eauto using recency_of_age_range.
  - tauto.
  - destruct (fromisoformat lib _) as [[us|us]|]; simpl;
      eauto using recency_of_age_range. tauto.
Qed.

Lemma compute_recency_score_range (lib : Lib) (now : Z) (item_doc : option Feed)
    (q : Q) :
  compute_recency_score lib now item_doc = Ok q -> (0.2 <= q <= 1)%Q.
Proof.
  intros H.
  destruct (compute_recency_score_defined lib now item_doc) as (q' & E & Hq).
  - unfold aware_timestamp. unfold compute_recency_score in H.
    destruct (doc_createdAt item_doc) as [[[us|us]|[|a s]]|]; simpl in *;
      try tauto; try discriminate.
    destruct (fromisoformat lib _) as [[us|us]|]; simpl in *; try tauto; discriminate.
  - congruence.
Qed.


(** ** The cache check and pagination *)

Lemma serve_cached_spec (user_id : string) (page limit : Z)
    (session_id : option string) (cached : list Recommendation) :
  1 <= page -> 0 <= limit ->
  let stop := (page - 1) * limit + limit in
  let total := Z.of_nat (length cached) in
  (total <= stop /\ total < 100 ->
     serve_cached user_id page limit session_id cached = None)
  /\ (~ (total <= stop /\ total < 100) ->
      serve_cached user_id page limit session_id cached
      = Some {| resp_user := user_id;
                resp_page := page;
                resp_limit := limit;
                resp_session_id := session_id;
                resp_total := length cached;
                resp_has_more := stop <? total;
                resp_results_count :=
                  length (py_slice cached ((page - 1) * limit) stop);
                resp_recommendations := py_slice cached ((page - 1) * limit) stop;
                resp_cache := hit;
                resp_stats := None |}).
Proof.
  intros Hpage Hlimit stop total. unfold serve_cached. fold stop.
  destruct cached as [|r cached].
  - split; [done|]. intros H. exfalso. apply H. subst stop total. simpl. nia.
  - set (l := r :: cached) in *.
    assert (Hb : (Z.of_nat (length l) <=? stop) && (length l <? PRELOAD_BUFFER)%nat
                 = true <-> total <= stop /\ total < 100).
    { rewrite andb_true_iff, Z.leb_le, Nat.ltb_lt. unfold PRELOAD_BUFFER. subst total. lia. }
    destruct ((Z.of_nat (length l) <=? stop) && (length l <? PRELOAD_BUFFER)%nat).
    + split; [done|]. intros H. exfalso. apply H, Hb. done.
    + split; [|done]. intros H. apply Hb in H. done.
Qed.

Lemma clamp_page_ge (page : Z) : 1 <= clamp_page page.
Proof. unfold clamp_page. destruct (Z.ltb_spec page 1); lia. Qed.

Lemma clamp_limit_range (limit : Z) : 5 <= clamp_limit limit <= 20.
Proof.
  unfold clamp_limit, MIN_PAGE_SIZE, MAX_PAGE_SIZE.
  destruct (Z.ltb_spec limit 5); [simpl; lia|].
  destruct (Z.ltb_spec 20 limit); lia.
Qed.

Lemma recommend_read_path (env : Env) (cache : Cache) (user_id : string)
    (req : Request) (cached : list Recommendation) :
  truthy_str (req_session_id req) = true ->
  req_refresh req = false ->
  get_cached_recommendations (env_now env) cache user_id (req_session_id req)
  = Some cached ->
  recommend env cache user_id req
  = match serve_cached user_id (clamp_page (req_page req)) (clamp_limit (req_limit req))
            (req_session_id req) cached with
    | Some p => (Success p, cache)
    | None =>
        regenerate env cache user_id (clamp_page (req_page req))
          (clamp_limit (req_limit req)) (req_session_id req)
          (clamp_ratio (req_personalized_ratio req))
    end.
Proof. intros Hs Hr Hc. unfold recommend. by rewrite Hs, Hr, Hc. Qed.

(** C5 (as amended).  A read with a session id and no refresh that finds a
    cached list of length [T], with [start = (page - 1) * limit] and
    [stop = start + limit] (page and limit after clamping): if [stop >= T]
    and [T < 100] the handler regenerates; otherwise it answers the slice
    [[start, stop)] as a cache hit with [has_more = (stop < T)].  For a cached
    list of 25 items and limit 10, page 2 is served items [[10, 20)] with
    [has_more] true, while page 3 (stop 30 >= 25, 25 < 100) forces a
    regeneration, as does page 1 of a cached list of 8 items. *)
Theorem recommend_cached_page (env : Env) (cache : Cache) (user_id : string)
    (req : Request) (cached : list Recommendation) :
  truthy_str (req_session_id req) = true ->
  req_refresh req = false ->
  get_cached_recommendations (env_now env) cache user_id (req_session_id req)
  = Some cached ->
  let page := clamp_page (req_page req) in
  let limit := clamp_limit (req_limit req) in
  let start := (page - 1) * limit in
  let stop := start + limit in
  let T := Z.of_nat (length cached) in
  let regenerated :=
    regenerate env cache user_id page limit (req_session_id req)
      (clamp_ratio (req_personalized_ratio req)) in
  (stop >= T /\ T < 100 -> recommend env cache user_id req = regenerated)
  /\ (~ (stop >= T /\ T < 100) ->
      exists p : Page,
        recommend env cache user_id req = (Success p, cache)
        /\ resp_cache p = hit
        /\ resp_recommendations p
           = take (Z.to_nat (stop - start)) (drop (Z.to_nat start) cached)
        /\ resp_has_more p = (stop <? T)
        /\ resp_total p = length cached)
  /\ (length cached = 25%nat -> req_limit req = 10 -> req_page req = 2 ->
      exists p : Page,
        recommend env cache user_id req = (Success p, cache)
        /\ resp_cache p = hit
        /\ resp_recommendations p = take 10 (drop 10 cached)
        /\ resp_has_more p = true)
  /\ (length cached = 25%nat -> req_limit req = 10 -> req_page req = 3 ->
      recommend env cache user_id req = regenerated)
  /\ (length cached = 8%nat -> req_limit req = 10 -> req_page req = 1 ->
      recommend env cache user_id req = regenerated).
Proof.
  intros Hs Hr Hc page limit start stop T regenerated.
  pose proof (recommend_read_path env cache user_id req cached Hs Hr Hc) as E.
  fold page limit in E.
  destruct (serve_cached_spec user_id page limit (req_session_id req) cached)
    as [Hmiss Hhit].
  { apply clamp_page_ge. }
  { pose proof (clamp_limit_range (req_limit req)). subst limit. lia. }
  fold start stop T in Hmiss, Hhit.
  assert (R : stop >= T /\ T < 100 -> recommend env cache user_id req = regenerated).
  { intros [H1 H2]. rewrite E, Hmiss; [done | lia]. }
  assert (S : ~ (stop >= T /\ T < 100) ->
              exists p : Page,
                recommend env cache user_id req = (Success p, cache)
                /\ resp_cache p = hit
                /\ resp_recommendations p
                   = take (Z.to_nat (stop - start)) (drop (Z.to_nat start) cached)
                /\ resp_has_more p = (stop <? T)
                /\ resp_total p = length cached).
  { intros H. rewrite E, Hhit by lia. eexists. split; [reflexivity|]. done. }
  split; [exact R|]. split; [exact S|].
  split; [|split].
  - intros HT Hl Hp.
    assert (page = 2 /\ limit = 10) as [Hp' Hl']
      by (subst page limit; rewrite Hp, Hl; done).
    destruct S as (p & Ep & Hh & Hrec & Hmore & _).
    { subst T stop start. rewrite HT, Hp', Hl'. lia. }
    exists p. split; [done|]. split; [done|].
    rewrite Hrec, Hmore. subst T stop start. rewrite HT, Hp', Hl'. done.
  - intros HT Hl Hp. apply R.
    assert (page = 3 /\ limit = 10) as [Hp' Hl']
      by (subst page limit; rewrite Hp, Hl; done).
    subst T stop start. rewrite HT, Hp', Hl'. lia.
  - intros HT Hl Hp. apply R.
    assert (page = 1 /\ limit = 10) as [Hp' Hl']
      by (subst page limit; rewrite Hp, Hl; done).
    subst T stop start. rewrite HT, Hp', Hl'. lia.
Qed.

Lemma recommend_cached_page_witness :
  exists p : Page,
    recommend demo_env (demo_cache 25) reader (demo_request 2)
    = (Success p, demo_cache 25)
    /\ resp_cache p = hit
    /\ resp_recommendations p = take 10 (drop 10 (demo_cached 25))
    /\ resp_has_more p = true.
Proof.
  assert (Hc : get_cached_recommendations (env_now demo_env) (demo_cache 25) reader
                 (req_session_id (demo_request 2)) = Some (demo_cached 25))
    by (vm_compute; reflexivity).
  apply (proj1 (proj2 (proj2
           (recommend_cached_page demo_env (demo_cache 25) reader (demo_request 2)
              (demo_cached 25) eq_refl eq_refl Hc)))); reflexivity.
Defined.

(** C5 (counterexample).  With 25 items cached, page 3 at limit 10 is not
    served from the cache as items [[20, 25)]: the handler regenerates and
    answers a miss. *)
Lemma cached_25_page_3_is_regenerated :
  get_cached_recommendations demo_now (demo_cache 25) reader demo_session
  = Some (demo_cached 25)
  /\ length (demo_cached 25) = 25%nat
  /\ exists (p : Page) (cache' : Cache),
       recommend demo_env (demo_cache 25) reader (demo_request 3) = (Success p, cache')
       /\ resp_cache p = miss
       /\ resp_recommendations p <> take 5 (drop 20 (demo_cached 25)).
Proof.
  split; [vm_compute; reflexivity|]. split; [reflexivity|].
  eexists. eexists. split; [vm_compute; reflexivity|].
  split; [reflexivity | discriminate].
Qed.

(** ** Writes to the cache *)

Lemma regenerate_outcome (env : Env) (cache : Cache) (user_id : string)
    (page limit : Z) (session_id : option string) (ratio : Q)
    (resp : Response) (cache' : Cache) :
  regenerate env cache user_id page limit session_id ratio = (resp, cache') ->
  (exists e, resp = Failure e /\ cache' = cache)
  \/ (exists p, resp = Success p /\ resp_cache p = miss).
Proof.
  unfold regenerate.
  destruct (build_full_list env user_id ratio) as [[[full_list recs] liked]|e].
  - destruct (cache_recommendations _ _ _ _ _ _) as [tok c'].
    intros H. injection H as <- <-. right. eauto.
  - intros H. injection H as <- <-. left. eauto.
Qed.

(** C10.  A page served as a cache hit leaves the cache exactly as it was
    (stored lists and expiry instants included); whenever a request changes
    the cache, its answer is a regeneration (a miss). *)
Theorem cache_hit_writes_nothing (env : Env) (cache : Cache) (user_id : string)
    (req : Request) (resp : Response) (cache' : Cache) :
  recommend env cache user_id req = (resp, cache') ->
  (forall p : Page, resp = Success p -> resp_cache p = hit -> cache' = cache)
  /\ (cache' <> cache -> exists p : Page, resp = Success p /\ resp_cache p = miss).
Proof.
  unfold recommend.
  destruct (if truthy_str (req_session_id req) && negb (req_refresh req)
            then _ else _) as [p0|].
  - intros H. injection H as <- <-. split; [done|]. intros H. by destruct H.
  - intros H. apply regenerate_outcome in H as [(e & -> & ->) | (p & -> & Hm)].
    + split; [done|]. intros H. by destruct H.
    + split; [|eauto]. intros p' Hp Hh. injection Hp as <-. congruence.
Qed.

Lemma cache_hit_writes_nothing_witness :
  exists p : Page,
    recommend demo_env (demo_cache 25) reader (demo_request 2)
    = (Success p, demo_cache 25)
    /\ resp_cache p = hit.
Proof.
  destruct (recommend demo_env (demo_cache 25) reader (demo_request 2))
    as [resp cache'] eqn:E.
  destruct resp as [p|e]; [|vm_compute in E; discriminate E].
  assert (Hh : resp_cache p = hit).
  { vm_compute in E. injection E as <- _. reflexivity. }
  exists p. split; [|exact Hh].
  f_equal. exact (proj1 (cache_hit_writes_nothing _ _ _ _ _ _ E) p eq_refl Hh).
Defined.

(** ** An unreachable cache store *)

Lemma unreachable_read (cache : Cache) (now : Z) (user_id : string)
    (session_id : option string) :
  unreachable cache -> get_cached_recommendations now cache user_id session_id = None.
Proof.
  unfold get_cached_recommendations, redis_get.
  intros [[H | H] | (client & H1 & H2 & H3)].
  - by rewrite H.
  - rewrite H. by destruct (REDIS_AVAILABLE cache).
  - by rewrite H1, H2, H3.
Qed.

Lemma unreachable_write (cache : Cache) (lib : Lib) (now : Z) (user_id : string)
    (recs : list Recommendation) (session_id : option string) :
  (degraded cache ->
     cache_recommendations lib now cache user_id recs session_id
     = (Some (session_or_new lib now user_id session_id), cache))
  /\ (lost cache ->
      cache_recommendations lib now cache user_id recs session_id = (None, cache)).
Proof.
  unfold cache_recommendations, redis_setex. split.
  - intros [H | H]; rewrite H; [done|]. by destruct (REDIS_AVAILABLE cache).
  - intros (client & H1 & H2 & H3). by rewrite H1, H2, H3.
Qed.

Lemma unreachable_regenerate (cache : Cache) (env : Env) (user_id : string)
    (req : Request) :
  unreachable cache ->
  let r := regenerate env cache user_id (clamp_page (req_page req))
             (clamp_limit (req_limit req)) (req_session_id req)
             (clamp_ratio (req_personalized_ratio req)) in
  r.2 = cache /\ answers_fresh env user_id req r.1.
Proof.
  intros Hu. unfold regenerate, answers_fresh.
  destruct (build_full_list env user_id _) as [[[full_list recs] liked]|e];
    [|done].
  destruct (unreachable_write cache (env_lib env) (env_now env) user_id full_list
              (req_session_id req)) as [Hd Hl].
  destruct Hu as [Hu | Hu]; [rewrite (Hd Hu) | rewrite (Hl Hu)]; simpl;
    (split; [done|]); eexists; (split; [reflexivity|]); done.
Qed.

(** C8 (as amended).  While the cache store is unreachable every cache read
    reports the entry absent and every cache write leaves the store untouched.
    In degraded mode (store marked unavailable at startup) the write returns
    the caller's session id when one was supplied and a locally generated token
    otherwise; when the store has become unreachable after startup the write
    returns no token.  In both cases two identical requests in a row are each
    answered by a regeneration: each reports a miss carrying the page of its
    own pipeline run, and fails only if that run itself fails. *)
Theorem unreachable_cache_is_bypassed (cache : Cache) :
  unreachable cache ->
  (forall (now : Z) (user_id : string) (session_id : option string),
      get_cached_recommendations now cache user_id session_id = None)
  /\ (forall (lib : Lib) (now : Z) (user_id : string)
             (recs : list Recommendation) (session_id : option string),
        (cache_recommendations lib now cache user_id recs session_id).2 = cache
        /\ (degraded cache ->
            (cache_recommendations lib now cache user_id recs session_id).1
            = Some (if truthy_str session_id then default ""%string session_id
                    else md5_token lib user_id now))
        /\ (lost cache ->
            (cache_recommendations lib now cache user_id recs session_id).1 = None))
  /\ (forall (env1 env2 : Env) (user_id : string) (req : Request),
        let first := recommend env1 cache user_id req in
        let second := recommend env2 first.2 user_id req in
        first.2 = cache /\ second.2 = cache
        /\ answers_fresh env1 user_id req first.1
        /\ answers_fresh env2 user_id req second.1).
Proof.
  intros Hu. split; [|split].
  - intros. by apply unreachable_read.
  - intros lib now user_id recs session_id.
    destruct (unreachable_write cache lib now user_id recs session_id) as [Hd Hl].
    split; [|split].
    + destruct Hu as [Hu | Hu]; [by rewrite (Hd Hu) | by rewrite (Hl Hu)].
    + intros H. rewrite (Hd H). simpl. f_equal.
      unfold session_or_new. by destruct session_id as [[|]|].
    + intros H. by rewrite (Hl H).
  - intros env1 env2 user_id req.
    assert (R : forall env, recommend env cache user_id req
                = regenerate env cache user_id (clamp_page (req_page req))
                    (clamp_limit (req_limit req)) (req_session_id req)
                    (clamp_ratio (req_personalized_ratio req))).
    { intros env. unfold recommend. rewrite unreachable_read by done.
      by destruct (truthy_str _ && negb _). }
    intros first second.
    destruct (unreachable_regenerate cache env1 user_id req Hu) as [H1 H1'].
    assert (E1 : first.2 = cache) by (subst first; by rewrite R).
    subst second. rewrite E1.
    destruct (unreachable_regenerate cache env2 user_id req Hu) as [H2 H2'].
    subst first. rewrite !R. done.
Qed.

Lemma unreachable_cache_is_bypassed_witness :
  unreachable degraded_cache
  /\ get_cached_recommendations demo_now degraded_cache reader demo_session = None
  /\ (cache_recommendations lib_demo demo_now degraded_cache reader [] None).1
     = Some "0123456789abcdef"%string
  /\ (recommend demo_env degraded_cache reader (demo_request 1)).2 = degraded_cache.
Proof.
  assert (Hu : unreachable degraded_cache) by (left; left; reflexivity).
  destruct (unreachable_cache_is_bypassed degraded_cache Hu) as (Hr & Hw & Ht).
  split; [exact Hu|]. split; [exact (Hr _ _ _)|]. split.
  - rewrite (proj1 (proj2 (Hw lib_demo demo_now reader [] None)));
      [reflexivity | left; reflexivity].
  - pose proof (Ht demo_env demo_env reader (demo_request 1)) as H.
    cbv zeta in H. exact (proj1 H).
Defined.

(** C8 (counterexample).  Once the store has become unreachable behind a
    client created at startup, a cache write returns no session token; and in
    degraded mode a write for a caller who supplied a session id returns that
    id, not the locally generated token. *)
Lemma lost_cache_write_returns_no_token :
  unreachable lost_cache
  /\ cache_recommendations lib_demo demo_now lost_cache reader [] None
     = (None, lost_cache)
  /\ unreachable degraded_cache
  /\ cache_recommendations lib_demo demo_now degraded_cache reader [] demo_session
     = (Some "s1"%string, degraded_cache)
  /\ md5_token lib_demo reader demo_now <> "s1"%string.
Proof.
  split; [|split; [reflexivity|]].
  - right. exists {| conn_up := false; conn_data := ∅ |}. done.
  - split; [left; left; reflexivity|]. split; [reflexivity | discriminate].
Qed.

(** ** The adapter of the external recommender *)









(** ** Insertion-ordered dictionaries *)

Section odict_facts.
Context {K V : Type} `{EqDecision K}.
Implicit Types (d : list (K * V)) (k : K) (v : V).

Lemma od_get_set d k v k' :
  od_get (od_set d k v) k' = if decide (k' = k) then Some v else od_get d k'.
Proof.
  induction d as [|[k0 v0] d IH]; simpl.
  - by destruct (decide (k' = k)).
  - destruct (decide (k = k0)) as [->|Hne]; simpl.
    + by destruct (decide (k' = k0)).
    + destruct (decide (k' = k0)) as [->|]; [|exact IH].
      by destruct (decide (k0 = k)).
Qed.

Lemma od_keys_cons d k v : od_keys ((k, v) :: d) = k :: od_keys d.
Proof. reflexivity. Qed.

Lemma od_get_None d k : od_get d k = None <-> k ∉ od_keys d.
Proof.
  induction d as [|[k0 v0] d IH]; cbn [od_get].
  - split; [intros _; apply not_elem_of_nil | done].
  - rewrite od_keys_cons, not_elem_of_cons. destruct (decide (k = k0)); [|tauto].
    split; [done | tauto].
Qed.

Lemma od_get_Some_keys d k v : od_get d k = Some v -> k ∈ od_keys d.
Proof.
  intros H. destruct (decide (k ∈ od_keys d)) as [|Hn]; [done|].
  apply od_get_None in Hn. congruence.
Qed.

Lemma od_keys_set d k v :
  od_keys (od_set d k v)
  = match od_get d k with Some _ => od_keys d | None => od_keys d ++ [k] end.
Proof.
  induction d as [|[k0 v0] d IH]; cbn [od_get od_set]; [done|].
  destruct (decide (k = k0)) as [->|]; [done|].
  rewrite !od_keys_cons, IH. by destruct (od_get d k).
Qed.

Lemma od_keys_set_elem d k v k' :
  k' ∈ od_keys (od_set d k v) <-> k' ∈ od_keys d \/ k' = k.
Proof.
  rewrite od_keys_set. destruct (od_get d k) as [v0|] eqn:E.
  - apply od_get_Some_keys in E. split; [auto | by intros [?| ->]].
  - rewrite elem_of_app, list_elem_of_singleton. done.
Qed.

Lemma od_keys_set_NoDup d k v : NoDup (od_keys d) -> NoDup (od_keys (od_set d k v)).
Proof.
  intros Hd. rewrite od_keys_set. destruct (od_get d k) eqn:E; [done|].
  apply od_get_None in E. apply NoDup_app. split; [done|].
  split; [|apply NoDup_singleton].
  intros x Hx Hx'. apply list_elem_of_singleton in Hx'. by subst.
Qed.


Lemma od_elem_get d k v : NoDup (od_keys d) -> (k, v) ∈ d -> od_get d k = Some v.
Proof.
  induction d as [|[k0 v0] d IH]; cbn [od_get]; intros Hd Hin.
  - by apply elem_of_nil in Hin.
  - rewrite od_keys_cons in Hd. apply NoDup_cons in Hd as [Hk0 Hd].
    apply elem_of_cons in Hin as [[= -> ->] | Hin].
    + by destruct (decide (k0 = k0)).
    + destruct (decide (k = k0)) as [->|]; [|auto].
      destruct Hk0. apply list_elem_of_fmap. by exists (k0, v).
Qed.
End odict_facts.

(** ** Merge *)

Lemma occurrences_snoc (k : option string) (pre : list Candidate) (x : Candidate) :
  occurrences k (pre ++ [x])
  = occurrences k pre ++ (if decide (item_id x = k) then [x] else []).
Proof.
  unfold occurrences. by rewrite filter_app.
Qed.

Lemma supplied_snoc (f : Candidate -> option Q) (k : option string)
    (pre : list Candidate) (x : Candidate) :
  supplied f k (pre ++ [x])
  = supplied f k pre ++ (if decide (item_id x = k) then option_list (f x) else []).
Proof.
  unfold supplied. rewrite occurrences_snoc, omap_app. f_equal.
  destruct (decide (item_id x = k)); [|done]. simpl. by destruct (f x).
Qed.


Lemma occurrences_absent (k : option string) (cs : list Candidate) :
  k ∉ item_id <$> cs -> occurrences k cs = [].
Proof.
  intros Hk. unfold occurrences.
  induction cs as [|c cs IH]; [done|].
  rewrite fmap_cons, not_elem_of_cons in Hk. destruct Hk as [Hne Hk].
  rewrite filter_cons_False by congruence. auto.
Qed.

Lemma occurrences_elem (k : option string) (cs : list Candidate) (c : Candidate) :
  c ∈ occurrences k cs <-> c ∈ cs /\ item_id c = k.
Proof. unfold occurrences. rewrite list_elem_of_filter. tauto. Qed.

Lemma supplied_elem (f : Candidate -> option Q) (k : option string)
    (cs : list Candidate) (x : Q) :
  x ∈ supplied f k cs <-> exists c, c ∈ cs /\ item_id c = k /\ f c = Some x.
Proof.
  unfold supplied. rewrite list_elem_of_omap. split.
  - intros (c & Hc & Hf). apply occurrences_elem in Hc as [? ?]. eauto.
  - intros (c & Hc & Hk & Hf). exists c. split; [|done].
    apply occurrences_elem. done.
Qed.

Lemma supplied_app (f : Candidate -> option Q) (k : option string)
    (cs1 cs2 : list Candidate) :
  supplied f k (cs1 ++ cs2) = supplied f k cs1 ++ supplied f k cs2.
Proof. unfold supplied, occurrences. by rewrite filter_app, omap_app. Qed.

Lemma is_max_of_ext (o : option Q) (vals vals' : list Q) :
  (forall x, x ∈ vals <-> x ∈ vals') -> is_max_of o vals -> is_max_of o vals'.
Proof.
  intros He. destruct o as [v|]; simpl.
  - intros [Hle (x & Hx & Hv)]. split.
    + intros y Hy. apply Hle, He, Hy.
    + exists x. split; [by apply He | done].
  - intros ->. destruct vals' as [|y vals']; [done|].
    exfalso. eapply elem_of_nil, He. left.
Qed.

Lemma is_max_of_unique (o o' : option Q) (vals : list Q) :
  is_max_of o vals -> is_max_of o' vals -> same_score o o'.
Proof.
  destruct o as [v|], o' as [v'|]; simpl.
  - intros [Hle (x & Hx & Hv)] [Hle' (x' & Hx' & Hv')].
    apply Hle in Hx'. apply Hle' in Hx. lra.
  - intros [_ (x & Hx & _)] ->. by apply elem_of_nil in Hx.
  - intros -> [_ (x & Hx & _)]. by apply elem_of_nil in Hx.
  - done.
Qed.

Lemma is_max_of_first (o : option Q) : is_max_of o (option_list o).
Proof.
  destruct o as [v|]; simpl; [|done]. split.
  - intros x Hx. apply list_elem_of_singleton in Hx as ->. lra.
  - exists v. split; [left | lra].
Qed.

Lemma py_max_spec (a b : Q) :
  (a <= py_max a b)%Q /\ (b <= py_max a b)%Q
  /\ (py_max a b = a \/ py_max a b = b).
Proof. unfold py_max. destruct (Qlt_le_dec a b); repeat split; auto; lra. Qed.

Lemma is_max_of_merge_field (old new : option Q) (vals : list Q) :
  nonneg new -> is_max_of old vals ->
  is_max_of (merge_field old new) (vals ++ option_list new).
Proof.
  intros Hn Ho. destruct new as [v|]; cbn [merge_field option_list nonneg] in *.
  2:{ by rewrite app_nil_r. }
  destruct old as [u|]; cbn [is_max_of] in *.
  - change (num_or0 (Some u)) with u.
    destruct (py_max_spec u v) as (Ha & Hb & Hc).
    destruct Ho as [Hle (x & Hx & Hv)]. split.
    + intros y Hy. apply elem_of_app in Hy as [Hy | Hy].
      * apply Hle in Hy. lra.
      * apply list_elem_of_singleton in Hy as ->. exact Hb.
    + destruct Hc as [-> | ->].
      * exists x. split; [apply elem_of_app; by left | done].
      * exists v. split; [apply elem_of_app; right; left | lra].
  - subst vals. change (num_or0 None) with 0%Q.
    destruct (py_max_spec 0 v) as (Ha & Hb & Hc). split.
    + intros y Hy. apply list_elem_of_singleton in Hy as ->. exact Hb.
    + exists v. split; [left|]. destruct Hc as [Hc | Hc]; rewrite Hc in *; lra.
Qed.

Lemma merge_into_field (f : Candidate -> option Q) (m c : Candidate) :
  f ∈ score_fields -> f (merge_into m c) = merge_field (f m) (f c).
Proof.
  unfold score_fields. intros H.
  repeat (apply elem_of_cons in H as [-> | H]; [reflexivity|]).
  by apply elem_of_nil in H.
Qed.

Lemma nonneg_scores_field (f : Candidate -> option Q) (c : Candidate) :
  f ∈ score_fields -> nonneg_scores c -> nonneg (f c).
Proof.
  unfold score_fields. intros H (H1 & H2 & H3).
  repeat (apply elem_of_cons in H as [-> | H]; [assumption|]).
  by apply elem_of_nil in H.
Qed.

Lemma merged_ok_step (pre : list Candidate) (acc : list (option string * Candidate))
    (x : Candidate) :
  nonneg_scores x -> merged_ok pre acc -> merged_ok (pre ++ [x]) (merge_step acc x).
Proof.
  intros Hx (Hnd & Hkeys & Hval).
  assert (Hget : forall k,
             od_get (merge_step acc x) k
             = if decide (k = item_id x)
               then Some (match od_get acc (item_id x) with
                          | Some m => merge_into m x
                          | None => x
                          end)
               else od_get acc k).
  { intros k. unfold merge_step.
    destruct (od_get acc (item_id x)); by rewrite od_get_set. }
  split; [|split].
  - unfold merge_step. destruct (od_get acc (item_id x)); by apply od_keys_set_NoDup.
  - intros k. rewrite fmap_app, elem_of_app, <- Hkeys. simpl.
    rewrite list_elem_of_singleton.
    unfold merge_step. destruct (od_get acc (item_id x)); apply od_keys_set_elem.
  - intros k m. rewrite Hget.
    destruct (decide (k = item_id x)) as [->|Hne].
    + intros [= <-].
      destruct (od_get acc (item_id x)) as [m0|] eqn:E.
      * destruct (Hval _ _ E) as (Hid & Hf & Hfd). split; [exact Hid|]. split.
        -- intros f Hfield. rewrite supplied_snoc, merge_into_field by done.
           destruct (decide (item_id x = item_id x)); [|done].
           apply is_max_of_merge_field; [by apply nonneg_scores_field | by apply Hf].
        -- rewrite occurrences_snoc, omap_app.
           destruct (decide (item_id x = item_id x)); [|done]. simpl.
           destruct (feed_data x) as [d|]; simpl.
           ++ by rewrite last_snoc.
           ++ by rewrite app_nil_r.
      * apply od_get_None in E. rewrite Hkeys in E.
        split; [done|]. split.
        -- intros f Hfield. rewrite supplied_snoc.
           destruct (decide (item_id x = item_id x)); [|done].
           unfold supplied. rewrite occurrences_absent by done. simpl.
           apply is_max_of_first.
        -- rewrite occurrences_snoc, occurrences_absent by done.
           destruct (decide (item_id x = item_id x)); [|done]. simpl.
           by destruct (feed_data x).
    + intros E. destruct (Hval _ _ E) as (Hid & Hf & Hfd). split; [exact Hid|]. split.
      * intros f Hfield. rewrite supplied_snoc.
        destruct (decide (item_id x = k)); [congruence|].
        rewrite app_nil_r. by apply Hf.
      * rewrite occurrences_snoc.
        destruct (decide (item_id x = k)); [congruence|].
        by rewrite app_nil_r.
Qed.

Lemma merged_ok_fold (cs : list Candidate) :
  Forall nonneg_scores cs -> merged_ok cs (fold_left merge_step cs []).
Proof.
  induction cs as [|x cs IH] using rev_ind; intros Hcs.
  - split; [constructor|]. split; [done|]. done.
  - apply Forall_app in Hcs as [Hcs Hx]. rewrite Forall_singleton in Hx.
    rewrite fold_left_app. simpl. apply merged_ok_step; [exact Hx | exact (IH Hcs)].
Qed.

Lemma merged_values_ids (acc : list (option string * Candidate)) :
  NoDup (od_keys acc) ->
  (forall k m, od_get acc k = Some m -> item_id m = k) ->
  item_id <$> od_values acc = od_keys acc.
Proof.
  intros Hnd Hid. unfold od_values, od_keys.
  rewrite <- list_fmap_compose. apply Forall_fmap_ext_1, Forall_forall.
  intros [k m] Hin. simpl. apply Hid. by apply od_elem_get.
Qed.

(** What the loop of [merge_candidates] computes for the candidates [cs]. *)
Lemma merge_fold_char (cs : list Candidate) :
  Forall nonneg_scores cs ->
  let merged := od_values (fold_left merge_step cs []) in
  NoDup (item_id <$> merged)
  /\ (forall k, k ∈ item_id <$> merged <-> k ∈ item_id <$> cs)
  /\ (forall m, m ∈ merged ->
        (forall f, f ∈ score_fields -> is_max_of (f m) (supplied f (item_id m) cs))
        /\ feed_data m = last (omap feed_data (occurrences (item_id m) cs))).
Proof.
  intros Hcs merged. subst merged.
  destruct (merged_ok_fold cs Hcs) as (Hnd & Hkeys & Hval).
  rewrite merged_values_ids; [|done|intros k m E; by apply Hval].
  split; [done|]. split; [done|].
  intros m Hm. apply list_elem_of_fmap in Hm as ([k m'] & -> & Hin). simpl.
  apply od_elem_get in Hin; [|done].
  destruct (Hval _ _ Hin) as (-> & Hf & Hfd). done.
Qed.

Lemma merged_nonneg (cs : list Candidate) (m : Candidate) :
  Forall nonneg_scores cs ->
  (forall f, f ∈ score_fields -> is_max_of (f m) (supplied f (item_id m) cs)) ->
  nonneg_scores m.
Proof.
  intros Hcs Hmax.
  assert (H : forall f, f ∈ score_fields -> nonneg (f m)).
  { intros f Hf. specialize (Hmax f Hf).
    destruct (f m) as [v|]; simpl in *; [|done].
    destruct Hmax as [_ (x & Hx & Hv)].
    apply supplied_elem in Hx as (c & Hc & _ & Hfc).
    rewrite Forall_forall in Hcs.
    pose proof (nonneg_scores_field f c Hf (Hcs c Hc)) as Hn.
    rewrite Hfc in Hn. simpl in Hn. lra. }
  unfold score_fields in H.
  repeat split; apply H; repeat constructor.
Qed.

(** Merging an already merged list [m1] of [a] together with [c] sees, per
    field, the maxima of [a ++ c]. *)
Lemma regroup_max (f : Candidate -> option Q) (k : option string)
    (a c m1 : list Candidate) (o : option Q) :
  (forall j, j ∈ item_id <$> m1 <-> j ∈ item_id <$> a) ->
  (forall m, m ∈ m1 -> is_max_of (f m) (supplied f (item_id m) a)) ->
  is_max_of o (supplied f k (m1 ++ c)) ->
  is_max_of o (supplied f k (a ++ c)).
Proof.
  intros Hids Hmax. rewrite !supplied_app.
  assert (Ha : forall u, u ∈ supplied f k m1 -> is_max_of (Some u) (supplied f k a)).
  { intros u Hu. apply supplied_elem in Hu as (m & Hm & <- & Hfm).
    rewrite <- Hfm. by apply Hmax. }
  assert (Hb : forall x, x ∈ supplied f k a -> exists u, u ∈ supplied f k m1).
  { intros x Hx. apply supplied_elem in Hx as (c0 & Hc0 & Hk & Hfc).
    assert (Hin : k ∈ item_id <$> m1).
    { apply Hids, list_elem_of_fmap. eauto. }
    apply list_elem_of_fmap in Hin as (m & -> & Hm).
    pose proof (Hmax m Hm) as Hmm.
    destruct (f m) as [u|] eqn:E; simpl in Hmm.
    - exists u. apply supplied_elem. eauto.
    - assert (Hx : x ∈ supplied f (item_id m) a) by (apply supplied_elem; eauto).
      rewrite Hmm in Hx. by apply elem_of_nil in Hx. }
  destruct o as [w|]; simpl.
  - intros [Hle (y & Hy & Hw)]. split.
    + intros x Hx. apply elem_of_app in Hx as [Hx | Hx].
      * destruct (Hb x Hx) as [u Hu].
        destruct (Ha u Hu) as [Hle' _]. apply Hle' in Hx.
        assert (u <= w)%Q by (apply Hle, elem_of_app; by left). lra.
      * apply Hle, elem_of_app. by right.
    + apply elem_of_app in Hy as [Hy | Hy].
      * destruct (Ha y Hy) as [_ (x & Hx & Hxy)].
        exists x. split; [apply elem_of_app; by left | lra].
      * exists y. split; [apply elem_of_app; by right | done].
  - intros Hnil. apply app_eq_nil in Hnil as [Hm1 Hc].
    rewrite Hc, app_nil_r.
    destruct (supplied f k a) as [|x vals] eqn:E; [done|].
    destruct (Hb x) as [u Hu]; [left|].
    rewrite Hm1 in Hu. by apply elem_of_nil in Hu.
Qed.

(** C3.  For candidate lists with non-negative score fields the merge outputs
    every [item_id] of its input exactly once.  Each of [cf_score],
    [content_score] and [social_score] of a merged record is the maximum of the
    values supplied for that field by the occurrences of its [item_id] (absent
    when no occurrence supplies it), so the per-field result is the same for
    any order of the candidates and for any grouping (merging the merge of a
    prefix with the rest).  [feed_data] is that of the last occurrence that
    supplies one. *)
Theorem merge_candidates_maxima (candidate_lists : list (list Candidate)) :
  Forall nonneg_scores (concat candidate_lists) ->
  let merged := merge_candidates candidate_lists in
  NoDup (item_id <$> merged)
  /\ (forall k, k ∈ item_id <$> merged <-> k ∈ item_id <$> concat candidate_lists)
  /\ (forall m, m ∈ merged -> forall f, f ∈ score_fields ->
        is_max_of (f m) (supplied f (item_id m) (concat candidate_lists)))
  /\ (forall m, m ∈ merged ->
        feed_data m
        = last (omap feed_data (occurrences (item_id m) (concat candidate_lists))))
  /\ (forall other : list (list Candidate),
        concat other ≡ₚ concat candidate_lists ->
        forall m', m' ∈ merge_candidates other ->
        exists m, m ∈ merged /\ item_id m = item_id m'
                  /\ forall f, f ∈ score_fields -> same_score (f m) (f m'))
  /\ (forall ls1 ls2 : list (list Candidate),
        candidate_lists = ls1 ++ ls2 ->
        forall m', m' ∈ merge_candidates (merge_candidates ls1 :: ls2) ->
        exists m, m ∈ merged /\ item_id m = item_id m'
                  /\ forall f, f ∈ score_fields -> same_score (f m) (f m')).
Proof.
  intros Hnn merged.
  destruct (merge_fold_char _ Hnn) as (Hnd & Hids & Hval).
  fold (merge_candidates candidate_lists) in Hnd, Hids, Hval. fold merged in Hnd, Hids, Hval.
  assert (Hfind : forall m' : Candidate,
             item_id m' ∈ item_id <$> concat candidate_lists ->
             (forall f, f ∈ score_fields ->
                is_max_of (f m') (supplied f (item_id m') (concat candidate_lists))) ->
             exists m, m ∈ merged /\ item_id m = item_id m'
                       /\ forall f, f ∈ score_fields -> same_score (f m) (f m')).
  { intros m' Hin Hmax'.
    apply Hids in Hin. apply list_elem_of_fmap in Hin as (m & Hk & Hm).
    exists m. split; [done|]. split; [done|].
    intros f Hf. eapply is_max_of_unique; [|by apply Hmax'].
    rewrite Hk. by apply Hval. }
  split; [done|]. split; [done|].
  split; [intros m Hm; by apply Hval|]. split; [intros m Hm; by apply Hval|].
  split.
  - intros other Hperm m' Hm'.
    assert (Hnn' : Forall nonneg_scores (concat other)) by (by rewrite Hperm).
    destruct (merge_fold_char _ Hnn') as (_ & Hids' & Hval').
    fold (merge_candidates other) in Hids', Hval'.
    apply (Hfind m').
    + rewrite <- Hperm. apply Hids', list_elem_of_fmap. eauto.
    + intros f Hf. eapply is_max_of_ext; [|by apply Hval'].
      intros x. rewrite !supplied_elem. by setoid_rewrite Hperm.
  - intros ls1 ls2 -> m' Hm'. rewrite concat_app in *.
    apply Forall_app in Hnn as [Hnn1 Hnn2].
    destruct (merge_fold_char _ Hnn1) as (_ & Hids1 & Hval1).
    fold (merge_candidates ls1) in Hids1, Hval1.
    assert (Hnn' : Forall nonneg_scores (concat (merge_candidates ls1 :: ls2))).
    { simpl. apply Forall_app. split; [|done]. apply Forall_forall.
      intros m Hm. eapply merged_nonneg; [exact Hnn1|]. by apply Hval1. }
    destruct (merge_fold_char _ Hnn') as (_ & Hids' & Hval').
    fold (merge_candidates (merge_candidates ls1 :: ls2)) in Hids', Hval'.
    simpl in Hids', Hval'.
    apply (Hfind m').
    + assert (Hin : item_id m' ∈ item_id <$> (merge_candidates ls1 ++ concat ls2))
        by (apply Hids', list_elem_of_fmap; eauto).
      rewrite fmap_app, elem_of_app in Hin. rewrite fmap_app, elem_of_app.
      destruct Hin as [Hin | Hin]; [left; by apply Hids1 | by right].
    + intros f Hf. eapply regroup_max; [exact Hids1| |by apply Hval'].
      intros m Hm. by apply Hval1.
Qed.

(** ** Lists: filters, prefixes and the shuffle *)

Section list_facts.
Context {A : Type}.
Implicit Types (l : list A) (x : A).

Lemma filter_ext_elem (P Q : A -> Prop) `{!forall x, Decision (P x)}
    `{!forall x, Decision (Q x)} l :
  (forall x, x ∈ l -> (P x <-> Q x)) -> filter P l = filter Q l.
Proof.
  induction l as [|y l IH]; intros Hall; [done|].
  rewrite !filter_cons.
  assert (Hy : P y <-> Q y) by (apply Hall; left).
  rewrite IH by (intros x Hx; apply Hall; by right).
  destruct (decide (P y)), (decide (Q y)); tauto.
Qed.

Lemma filter_all (P : A -> Prop) `{!forall x, Decision (P x)} l :
  (forall x, x ∈ l -> P x) -> filter P l = l.
Proof.
  induction l as [|y l IH]; intros Hall; [done|].
  rewrite filter_cons_True by (apply Hall; left).
  f_equal. apply IH. intros x Hx. apply Hall. by right.
Qed.

Lemma filter_none (P : A -> Prop) `{!forall x, Decision (P x)} l :
  (forall x, x ∈ l -> ~ P x) -> filter P l = [].
Proof.
  induction l as [|y l IH]; intros Hall; [done|].
  rewrite filter_cons_False by (apply Hall; left).
  apply IH. intros x Hx. apply Hall. by right.
Qed.

Lemma filter_not_in_prefix `{!EqDecision A} (l1 l2 : list A) :
  NoDup (l1 ++ l2) -> filter (fun x => x ∉ l1) (l1 ++ l2) = l2.
Proof.
  intros Hnd. apply NoDup_app in Hnd as (_ & Hdisj & _).
  rewrite filter_app, filter_none, filter_all; [done| |].
  - intros x Hx Hx'. by apply (Hdisj x).
  - intros x Hx Hx'. done.
Qed.

Lemma filter_not_in_take `{!EqDecision A} l (n : nat) :
  NoDup l -> filter (fun x => x ∉ take n l) l = drop n l.
Proof.
  intros Hnd.
  transitivity (filter (fun x => x ∉ take n l) (take n l ++ drop n l)).
  - by rewrite take_drop.
  - apply filter_not_in_prefix. by rewrite take_drop.
Qed.

Lemma length_filter_split (P Q : A -> Prop) `{!forall x, Decision (P x)}
    `{!forall x, Decision (Q x)} l :
  length (filter Q l)
  = (length (filter Q (filter P l)) + length (filter Q (filter (fun x => ~ P x) l)))%nat.
Proof.
  induction l as [|y l IH]; [done|].
  rewrite !filter_cons.
  destruct (decide (P y)), (decide (~ P y)); try tauto;
    rewrite ?filter_cons; destruct (decide (Q y)); simpl; lia.
Qed.

Lemma NoDup_fmap_eq {B} (f : A -> B) l x y :
  NoDup (f <$> l) -> x ∈ l -> y ∈ l -> f x = f y -> x = y.
Proof.
  induction l as [|z l IH]; intros Hnd Hx Hy Hf.
  - by apply elem_of_nil in Hx.
  - rewrite fmap_cons in Hnd. apply NoDup_cons in Hnd as [Hz Hnd].
    apply elem_of_cons in Hx as [-> | Hx]; apply elem_of_cons in Hy as [-> | Hy].
    + done.
    + destruct Hz. rewrite Hf. by apply list_elem_of_fmap_2.
    + destruct Hz. rewrite <- Hf. by apply list_elem_of_fmap_2.
    + by apply IH.
Qed.

Lemma insert_delete_perm l (i : nat) x y :
  l !! i = Some y -> <[i := x]> l ≡ₚ x :: delete i l.
Proof.
  intros Hi. apply lookup_lt_Some in Hi.
  rewrite insert_take_drop, delete_take_drop by done.
  by rewrite <- Permutation_middle.
Qed.

Lemma swap_perm (i j : nat) l : swap i j l ≡ₚ l.
Proof.
  unfold swap.
  destruct (l !! i) as [a|] eqn:Hi; [|done].
  destruct (l !! j) as [b|] eqn:Hj; [|done].
  destruct (decide (i = j)) as [->|Hne].
  - rewrite list_insert_insert_eq. assert (a = b) as -> by congruence.
    by rewrite list_insert_id.
  - assert (Hi' : <[j := a]> l !! i = Some a) by (by rewrite list_lookup_insert_ne).
    etrans; [apply (insert_delete_perm _ i b a Hi')|].
    etrans; [|symmetry; apply (delete_Permutation l j b Hj)].
    apply Permutation_skip.
    apply (Permutation_cons_inv (a := a)).
    etrans; [symmetry; apply (delete_Permutation _ i a Hi')|].
    by apply insert_delete_perm with b.
Qed.

Lemma shuffle_from_perm (rnd : nat -> nat) (i : nat) l : shuffle_from rnd i l ≡ₚ l.
Proof.
  revert l. induction i as [|i IH]; intros l; simpl; [done|].
  rewrite IH. apply swap_perm.
Qed.

Lemma shuffle_perm (rnd : nat -> nat) l : shuffle rnd l ≡ₚ l.
Proof. apply shuffle_from_perm. Qed.
End list_facts.

(** ** The personalization mixer *)

Lemma Qeq_bool_same (x : Q) : Qeq_bool x x = true.
Proof. apply Qeq_bool_iff. reflexivity. Qed.

Lemma feed_eqb_refl (a : Feed) : feed_eqb a a = true.
Proof.
  unfold feed_eqb. rewrite !bool_decide_eq_true_2 by done. simpl.
  destruct (feed_decayedPopularityScore a); simpl; [by rewrite Qeq_bool_same | done].
Qed.

Lemma cat_eqb_refl (a : Categorized) : cat_eqb a a = true.
Proof.
  unfold cat_eqb, scored_eqb.
  rewrite !bool_decide_eq_true_2, !Qeq_bool_same by done. simpl.
  rewrite Bool.eqb_reflx, andb_true_r.
  destruct (s_feed_data (base a)); [apply feed_eqb_refl | done].
Qed.

Lemma cat_eqb_id (a b : Categorized) : cat_eqb a b = true -> cat_id a = cat_id b.
Proof.
  unfold cat_eqb, scored_eqb, cat_id. rewrite !andb_true_iff.
  intros [[[[[H _] _] _] _] _]. by apply bool_decide_eq_true in H.
Qed.

Lemma py_in_elem (cats l : list Categorized) (r : Categorized) :
  NoDup (cat_id <$> cats) -> r ∈ cats -> (forall y, y ∈ l -> y ∈ cats) ->
  (py_in r l = true <-> r ∈ l).
Proof.
  intros Hnd Hr Hl. unfold py_in.
  induction l as [|y l IH]; simpl.
  - split; [done | intros H; by apply elem_of_nil in H].
  - rewrite orb_true_iff, elem_of_cons, IH by (intros z Hz; apply Hl; by right).
    split; (intros [H | H]; [left | by right]).
    + apply cat_eqb_id in H.
      eapply NoDup_fmap_eq; [exact Hnd | done | apply Hl; left | done].
    + subst. apply cat_eqb_refl.
Qed.

Lemma py_int_floor (x : Q) : (0 <= x)%Q -> py_int x = Qfloor x.
Proof.
  destruct x as [n d]. unfold Qle, py_int, Qfloor. simpl. intros H.
  apply Z.quot_div_nonneg; lia.
Qed.

Lemma num_personalized_range (t : nat) (r : Q) :
  (0 <= r <= 1)%Q ->
  num_personalized_of (Z.of_nat t) r = Qfloor (inject_Z (Z.of_nat t) * r)
  /\ 0 <= Qfloor (inject_Z (Z.of_nat t) * r) <= Z.of_nat t.
Proof.
  intros [H0 H1].
  assert (Ht : (0 <= inject_Z (Z.of_nat t))%Q).
  { change 0%Q with (inject_Z 0). rewrite <- Zle_Qle. lia. }
  assert (L : (0 <= inject_Z (Z.of_nat t) * r)%Q) by (by apply Qmult_le_0_compat).
  assert (U : (inject_Z (Z.of_nat t) * r <= inject_Z (Z.of_nat t))%Q).
  { rewrite <- (Qmult_1_r (inject_Z (Z.of_nat t))) at 2.
    rewrite !(Qmult_comm (inject_Z (Z.of_nat t))).
    by apply Qmult_le_compat_r. }
  split; [by apply py_int_floor|].
  apply Qfloor_resp_le in L, U. rewrite Qfloor_Z in U.
  change (Qfloor 0) with 0 in L. done.
Qed.

Lemma clamp_ratio_range (r : Q) : (0 <= clamp_ratio r <= 1)%Q.
Proof.
  unfold clamp_ratio, py_max, py_min.
  destruct (Qlt_le_dec r 1); destruct (Qlt_le_dec 0 _); split; lra.
Qed.

Lemma py_prefix_nonneg {A} (l : list A) (n : Z) :
  0 <= n -> py_prefix l n = take (Z.to_nat n) l.
Proof. intros H. unfold py_prefix. by rewrite (proj2 (Z.leb_le 0 n) H). Qed.

Lemma categorize_ids (scored : list Scored) :
  cat_id <$> (categorize <$> scored) = s_item_id <$> scored.
Proof. rewrite <- list_fmap_compose. done. Qed.

Section mixer.
Context (rnd : nat -> nat) (r : Q) (cats : list Categorized).
Hypothesis cats_nodup : NoDup (cat_id <$> cats).
Hypothesis r_range : (0 <= r <= 1)%Q.

Let popular := filter (fun c => is_popular c = true) cats.
Let personalized := filter (fun c => is_popular c <> true) cats.
Let total := Nat.min (length cats) 100.
Let num_pers := Z.to_nat (Qfloor (inject_Z (Z.of_nat total) * r)).
Let taken := take num_pers personalized ++ take (total - num_pers) popular.

Lemma taken_in_cats (c : Categorized) : c ∈ taken -> c ∈ cats.
Proof.
  unfold taken. rewrite elem_of_app.
  intros [H | H]; apply elem_of_take in H as (i & H & _);
    apply list_elem_of_lookup_2, list_elem_of_filter in H; tauto.
Qed.

Lemma mix_char :
  mix rnd r cats
  = shuffle rnd taken
    ++ take (total - length taken) (filter (fun c => c ∉ taken) cats).
Proof.
  destruct (num_personalized_range total r r_range) as [Hnp Hrange].
  unfold mix. unfold total_needed_of, PRELOAD_BUFFER. fold total.
  rewrite Hnp.
  rewrite !py_prefix_nonneg by lia.
  replace (Z.to_nat (Z.of_nat total - Qfloor (inject_Z (Z.of_nat total) * r)))
    with (total - num_pers)%nat by (unfold num_pers; lia).
  fold num_pers popular personalized taken.
  assert (Hlen : length (shuffle rnd taken) = length taken)
    by apply Permutation_length, shuffle_perm.
  assert (Hfilter : filter (fun c => py_in c (shuffle rnd taken) = false) cats
                    = filter (fun c => c ∉ taken) cats).
  { apply filter_ext_elem. intros c Hc.
    rewrite <- not_true_iff_false.
    rewrite (py_in_elem cats) by
      (try done; intros y Hy; apply taken_in_cats; by rewrite <- (shuffle_perm rnd)).
    by rewrite (shuffle_perm rnd). }
  rewrite Hfilter, Hlen.
  destruct (Z.ltb_spec (Z.of_nat (length taken)) (Z.of_nat total)) as [Hlt | Hge].
  - rewrite py_prefix_nonneg by lia. do 2 f_equal. lia.
  - replace (total - length taken)%nat with 0%nat by lia.
    by rewrite take_0, app_nil_r.
Qed.

Lemma remaining_length :
  length (filter (fun c => c ∉ taken) cats) = (length cats - length taken)%nat
  /\ (length taken <= length cats)%nat.
Proof.
  assert (Hnd : NoDup cats) by (eapply NoDup_fmap_1, cats_nodup).
  assert (Hpop : NoDup popular) by (by apply NoDup_filter).
  assert (Hpers : NoDup personalized) by (by apply NoDup_filter).
  assert (Hsplit : length cats = (length popular + length personalized)%nat).
  { unfold popular, personalized. clear. induction cats as [|c l IH]; [done|].
    rewrite !filter_cons. destruct (decide (is_popular c = true)),
      (decide (is_popular c <> true)); simpl; try tauto; lia. }
  rewrite (length_filter_split (fun c => is_popular c = true) (fun c => c ∉ taken)).
  fold popular personalized.
  assert (E1 : filter (fun c => c ∉ taken) popular
               = filter (fun c => c ∉ take (total - num_pers) popular) popular).
  { apply filter_ext_elem. intros c Hc. unfold taken. rewrite elem_of_app.
    split; [tauto|]. intros H [H' | H']; [|done].
    apply elem_of_take in H' as (i & H' & _).
    apply list_elem_of_lookup_2, list_elem_of_filter in H'.
    apply list_elem_of_filter in Hc. tauto. }
  assert (E2 : filter (fun c => c ∉ taken) personalized
               = filter (fun c => c ∉ take num_pers personalized) personalized).
  { apply filter_ext_elem. intros c Hc. unfold taken. rewrite elem_of_app.
    split; [tauto|]. intros H [H' | H']; [done|].
    apply elem_of_take in H' as (i & H' & _).
    apply list_elem_of_lookup_2, list_elem_of_filter in H'.
    apply list_elem_of_filter in Hc. tauto. }
  rewrite E1, E2, !filter_not_in_take by done.
  unfold taken. rewrite length_app, !length_drop, !length_take. lia.
Qed.

Lemma mix_length : length (mix rnd r cats) = total.
Proof.
  rewrite mix_char, length_app, length_take.
  rewrite (Permutation_length (shuffle_perm rnd taken)).
  destruct remaining_length as [-> Hle].
  assert (length taken <= total)%nat.
  { destruct (num_personalized_range total r r_range) as [_ Hrange].
    unfold taken. rewrite length_app, !length_take. unfold num_pers. lia. }
  unfold total in *. lia.
Qed.
End mixer.





(** ** Uniqueness of identifiers through the pipeline *)

Lemma merge_keys_ok (cs : list Candidate) :
  let acc := fold_left merge_step cs [] in
  NoDup (od_keys acc) /\ (forall k m, od_get acc k = Some m -> item_id m = k).
Proof.
  induction cs as [|x cs IH] using rev_ind; simpl.
  - split; [constructor | done].
  - rewrite fold_left_app. simpl. destruct IH as [Hnd Hid].
    set (acc := fold_left merge_step cs []) in *.
    unfold merge_step.
    destruct (od_get acc (item_id x)) as [m|] eqn:E.
    + split; [by apply od_keys_set_NoDup|].
      intros k m'. rewrite od_get_set.
      destruct (decide (k = item_id x)) as [->|]; [|by apply Hid].
      intros [= <-]. simpl. by apply Hid.
    + split; [by apply od_keys_set_NoDup|].
      intros k m'. rewrite od_get_set.
      destruct (decide (k = item_id x)) as [->|]; [|by apply Hid].
      by intros [= <-].
Qed.

Lemma merge_candidates_ids_unique (candidate_lists : list (list Candidate)) :
  NoDup (item_id <$> merge_candidates candidate_lists).
Proof.
  unfold merge_candidates.
  destruct (merge_keys_ok (concat candidate_lists)) as [Hnd Hid].
  by rewrite merged_values_ids.
Qed.

Lemma compute_hybrid_ids (lib : Lib) (db : DB) (now : Z) (user_id : string)
    (candidates : list Candidate) (scored : list Scored) :
  compute_hybrid lib db now user_id candidates = Ok scored ->
  s_item_id <$> scored ≡ₚ item_id <$> candidates.
Proof.
  intros H. apply compute_hybrid_inv in H as (unsorted & HF & ->).
  rewrite sorted_desc_perm.
  assert (E : s_item_id <$> unsorted = item_id <$> candidates); [|by rewrite E].
  induction HF as [|c s cs ss Hs _ IH]; [done|].
  rewrite !fmap_cons, IH. f_equal.
  apply score_candidate_inv in Hs as (recency & _ & ->). done.
Qed.

Lemma mix_ids_unique (rnd : nat -> nat) (r : Q) (cats : list Categorized) :
  NoDup (cat_id <$> cats) -> (0 <= r <= 1)%Q ->
  NoDup (cat_id <$> mix rnd r cats).
Proof.
  intros Hids Hr.
  assert (Hnd : NoDup cats) by (eapply NoDup_fmap_1, Hids).
  pose proof (mix_char rnd r cats Hids Hr) as Hchar. cbv zeta in Hchar.
  set (taken := take _ _ ++ take _ _) in Hchar.
  assert (Htaken_in : forall c, c ∈ taken -> c ∈ cats).
  { intros c. unfold taken. rewrite elem_of_app.
    intros [H | H]; eapply elem_of_sublist in H; try apply sublist_take;
      apply list_elem_of_filter in H; tauto. }
  assert (Htaken : NoDup taken).
  { unfold taken. apply NoDup_app. split; [|split].
    - eapply sublist_NoDup; [|apply sublist_take]. by apply NoDup_filter.
    - intros c H1 H2.
      eapply elem_of_sublist in H1; [|apply sublist_take].
      eapply elem_of_sublist in H2; [|apply sublist_take].
      apply list_elem_of_filter in H1, H2. tauto.
    - eapply sublist_NoDup; [|apply sublist_take]. by apply NoDup_filter. }
  rewrite Hchar. apply NoDup_fmap_2_strong.
  - intros x y Hx Hy Hxy.
    assert (Hin : forall c, c ∈ shuffle rnd taken
                              ++ take (Nat.min (length cats) 100 - length taken)
                                   (filter (fun c => c ∉ taken) cats) -> c ∈ cats).
    { intros c Hc. apply elem_of_app in Hc as [Hc | Hc].
      - apply Htaken_in. by rewrite <- (shuffle_perm rnd).
      - eapply elem_of_sublist in Hc; [|apply sublist_take].
        apply list_elem_of_filter in Hc. tauto. }
    eapply NoDup_fmap_eq; [exact Hids | by apply Hin | by apply Hin | done].
  - apply NoDup_app. split; [|split].
    + by rewrite (shuffle_perm rnd).
    + intros c H1 H2. rewrite (shuffle_perm rnd) in H1.
      eapply elem_of_sublist in H2; [|apply sublist_take].
      apply list_elem_of_filter in H2. tauto.
    + eapply sublist_NoDup; [|apply sublist_take]. by apply NoDup_filter.
Qed.

Lemma annotate_id (feeds_map : list (string * Feed))
    (friend_map : list (string * list string)) (c : Categorized) (rec : Recommendation) :
  annotate feeds_map friend_map c = Ok rec -> rec_item_id rec = cat_id c.
Proof.
  unfold annotate. intros H. apply bind_Ok in H as (md & _ & H).
  by injection H as <-.
Qed.

Lemma generate_ids_unique (env : Env) (user_id : string) (excluded : gset string)
    (recommendations : list Scored) (feeds_map : list (string * Feed)) :
  generate_recommendations_for_user env user_id excluded
  = Ok (recommendations, feeds_map) ->
  NoDup (s_item_id <$> recommendations).
Proof.
  unfold generate_recommendations_for_user. intros H.
  apply bind_Ok in H as (from_gorse & _ & H).
  apply bind_Ok in H as (recs & Hh & H). injection H as <- <-.
  rewrite (compute_hybrid_ids _ _ _ _ _ _ Hh).
  apply merge_candidates_ids_unique.
Qed.



(** The three sources that consult the exclusion set never contribute an
    excluded identifier. *)
Lemma checked_sources_respect_exclusion (env : Env) (user_id : string)
    (excluded : gset string) (feeds_map : list (string * Feed)) :
  (forall it c, gorse_candidate excluded feeds_map it = Ok (Some c) ->
                in_set (item_id c) excluded = false)
  /\ (forall c, c ∈ related_candidates (env_db env) user_id excluded ->
                in_set (item_id c) excluded = false)
  /\ (forall c, c ∈ social_candidates (env_db env) user_id excluded ->
                in_set (item_id c) excluded = false).
Proof.
  split; [|split].
  - intros it c. unfold gorse_candidate.
    destruct (g_item_id it) as [| | |iid| |]; try discriminate.
    destruct (bool_decide (iid ∈ excluded)) eqn:E; [discriminate|].
    destruct (od_get feeds_map iid); [|discriminate].
    intros [= <-]. exact E.
  - intros c Hc. unfold related_candidates in Hc.
    apply list_elem_of_omap in Hc as (rel & _ & Hrel).
    destruct (in_set (related_item_id rel) excluded) eqn:E; [discriminate|].
    by injection Hrel as <-.
  - intros c Hc. unfold social_candidates in Hc.
    apply list_elem_of_omap in Hc as (s & _ & Hs).
    destruct (bool_decide (s.1 ∈ excluded)) eqn:E; [discriminate|].
    by injection Hs as <-.
Qed.

(** ** Worked examples *)

(** The sort is descending and keeps the input order of equal keys. *)
Example sorted_desc_is_stable :
  sorted_desc (fun a b : string * nat => (a.2 <=? b.2)%nat)
    [("a"%string, 1%nat); ("b"%string, 2%nat); ("c"%string, 1%nat); ("d"%string, 2%nat)]
  = [("b"%string, 2%nat); ("d"%string, 2%nat); ("a"%string, 1%nat); ("c"%string, 1%nat)].
Proof. reflexivity. Qed.

(** Five items with the draws 0: the loop swaps the last position with the
    first at every step. *)
Example shuffle_with_zero_draws :
  shuffle (fun _ => O) [1; 2; 3; 4; 5]%nat = [2; 3; 4; 5; 1]%nat.
Proof. reflexivity. Qed.

Example merge_demo_lists :
  merge_candidates demo_lists
  = [demo_candidate post_1 (Some 0.8%Q) (Some 0.9%Q) (Some demo_post);
     demo_candidate post_2 None (Some 0.5%Q) None].
Proof. reflexivity. Qed.


Lemma merge_candidates_maxima_witness :
  Forall nonneg_scores (concat demo_lists)
  /\ NoDup (item_id <$> merge_candidates demo_lists).
Proof.
  assert (H : Forall nonneg_scores (concat demo_lists)).
  { repeat (apply Forall_cons; split; [repeat split; simpl; try exact I; lra|]).
    apply Forall_nil_2. }
  split; [exact H|].
  exact (proj1 (merge_candidates_maxima demo_lists H)).
Defined.



(** C1 (the code at a failing input).  The reader follows the author and has
    commented on the author's post: the post is in the exclusion set, and the
    regenerated list still recommends it, because the candidates of the
    followed-users source are not checked against the exclusion set. *)
Theorem excluded_item_is_recommended :
  post_1 ∈ get_user_seen_items demo_db reader ∪ get_user_created_items demo_db reader
  /\ Some post_1 ∈ item_id <$> candidate_followed_users demo_db reader 50
  /\ exists full_list recommendations liked,
       build_full_list demo_env reader (clamp_ratio 0.7)
       = Ok (full_list, recommendations, liked)
       /\ Some post_1 ∈ rec_item_id <$> full_list.
Proof.
  split; [|split].
  - apply (bool_decide_unpack _). vm_compute. exact I.
  - vm_compute. left.
  - destruct (build_full_list demo_env reader (clamp_ratio 0.7))
      as [[[full_list recs] liked]|e] eqn:E; [|vm_compute in E; discriminate E].
    exists full_list, recs, liked. split; [reflexivity|].
    vm_compute in E. injection E as <- _ _. left.
Qed.

(** * Further properties of the code *)

(** ** Connecting to the cache at startup *)

Lemma connect_loop_fails (server : nat -> option (gmap string CacheEntry))
    (max_retries attempt todo slept : nat) :
  (forall k, (attempt <= k < attempt + todo)%nat -> server k = None) ->
  exists slept',
    connect_loop server max_retries attempt todo slept
    = (false, {| REDIS_AVAILABLE := false; redis_client := None |}, slept')
    /\ (slept <= slept' <= slept + todo)%nat
    /\ ((attempt + todo = max_retries)%nat ->
        slept' = (slept + (todo - 1))%nat).
Proof.
  revert attempt slept. induction todo as [|todo IH]; intros attempt slept Hnone; simpl.
  - exists slept. split; [done|]. split; lia.
  - rewrite Hnone by lia.
    destruct (IH (S attempt)
                (if (attempt <? max_retries - 1)%nat then S slept else slept))
      as (slept' & E & Hb & Hs).
    { intros k Hk. apply Hnone. lia. }
    exists slept'. split; [exact E|]. split.
    + destruct (attempt <? max_retries - 1)%nat; lia.
    + intros Hsum. rewrite Hs by lia.
      destruct (Nat.ltb_spec attempt (max_retries - 1)); lia.
Qed.

Lemma connect_loop_succeeds (server : nat -> option (gmap string CacheEntry))
    (max_retries attempt todo slept k : nat) (data : gmap string CacheEntry) :
  (attempt + todo = max_retries)%nat ->
  (attempt <= k < max_retries)%nat ->
  (forall j, (attempt <= j < k)%nat -> server j = None) ->
  server k = Some data ->
  connect_loop server max_retries attempt todo slept
  = (true,
     {| REDIS_AVAILABLE := true;
        redis_client := Some {| conn_up := true; conn_data := data |} |},
     (slept + (k - attempt))%nat).
Proof.
  revert attempt slept. induction todo as [|todo IH]; intros attempt slept Hsum Hk Hnone Hsome.
  - lia.
  - simpl. destruct (decide (attempt = k)) as [->|Hne].
    + rewrite Hsome. f_equal; lia.
    + rewrite Hnone by lia.
      rewrite IH by (try lia; try done; intros j Hj; apply Hnone; lia).
      destruct (Nat.ltb_spec attempt (max_retries - 1)); [|lia].
      f_equal; lia.
Qed.

(** X1.  [connect_redis] makes at most [max_retries] attempts.  When attempt
    [k] is the first whose ping succeeds it returns [True], leaves the flag on
    with that client, and has slept [k] times; when all attempts fail it
    returns [False], leaves the cache in degraded mode (flag off, no client)
    after [max_retries - 1] sleeps, and every later cache read reports absent. *)
Theorem connect_redis_outcome (server : nat -> option (gmap string CacheEntry))
    (max_retries : nat) :
  (forall (k : nat) (data : gmap string CacheEntry),
      (k < max_retries)%nat ->
      (forall j, (j < k)%nat -> server j = None) ->
      server k = Some data ->
      connect_redis server max_retries
      = (true,
         {| REDIS_AVAILABLE := true;
            redis_client := Some {| conn_up := true; conn_data := data |} |},
         k))
  /\ ((forall k, (k < max_retries)%nat -> server k = None) ->
      connect_redis server max_retries
      = (false, {| REDIS_AVAILABLE := false; redis_client := None |},
         (max_retries - 1)%nat)
      /\ degraded (connect_redis server max_retries).1.2
      /\ forall now user_id session_id,
           get_cached_recommendations now (connect_redis server max_retries).1.2
             user_id session_id = None).
Proof.
  unfold connect_redis. split.
  - intros k data Hk Hnone Hsome.
    rewrite (connect_loop_succeeds server max_retries 0 max_retries 0 k data);
      try done; try lia.
    + f_equal; lia.
    + intros j Hj. apply Hnone. lia.
  - intros Hnone.
    destruct (connect_loop_fails server max_retries 0 max_retries 0)
      as (slept' & E & _ & Hs).
    { intros k Hk. apply Hnone. lia. }
    rewrite E, Hs by lia. simpl. split; [done|]. split; [by left|done].
Qed.

Lemma connect_redis_outcome_witness :
  connect_redis (fun k => if (k <? 2)%nat then None else Some ∅) 3
  = (true,
     {| REDIS_AVAILABLE := true;
        redis_client := Some {| conn_up := true; conn_data := ∅ |} |},
     2%nat).
Proof.
  apply (proj1 (connect_redis_outcome (fun k => if (k <? 2)%nat then None else Some ∅) 3)
           2%nat ∅).
  - lia.
  - intros j Hj. destruct j as [|[|j]]; [reflexivity | reflexivity | lia].
  - reflexivity.
Defined.

(** ** Cache keys *)

Lemma append_cons (c : ascii) (s t : string) :
  String c s +:+ t = String c (s +:+ t).
Proof. reflexivity. Qed.

Lemma append_nil (t : string) : "" +:+ t = t.
Proof. reflexivity. Qed.

Lemma append_colon_inj (u u' s s' : string) :
  colon_free u -> colon_free u' ->
  u +:+ ":" +:+ s = u' +:+ ":" +:+ s' -> u = u' /\ s = s'.
Proof.
  revert u'. induction u as [|c u IH]; intros [|c' u'] Hu Hu';
    rewrite ?append_cons, ?append_nil.
  - by intros [= ->].
  - intros [= <- _]. by destruct Hu' as [? _].
  - intros [= -> _]. by destruct Hu as [? _].
  - intros [= -> E]. destruct Hu as [_ Hu], Hu' as [_ Hu'].
    destruct (IH u' Hu Hu' E) as [-> ->]. done.
Qed.

Lemma valid_ObjectId_colon_free (s : string) :
  ObjectId_is_valid s = true -> colon_free s.
Proof.
  unfold ObjectId_is_valid. rewrite andb_true_iff. intros [_ H].
  induction s as [|c s IH]; simpl in *; [done|].
  apply andb_true_iff in H as [Hc Hs]. split; [|by apply IH].
  intros ->. discriminate Hc.
Qed.

(** X2.  Cache keys keep users and sessions apart: for user ids without a
    colon (every valid ObjectId is one) two requests get the same key only for
    the same user and, when a session id is given, the same session; a session
    key never equals a per-user "latest" key.  With a colon in the user id two
    different users can share a key. *)
Theorem get_cache_key_separates (u u' : string) (s s' : option string) :
  (ObjectId_is_valid u = true -> colon_free u)
  /\ (colon_free u -> colon_free u' ->
      get_cache_key u s = get_cache_key u' s' ->
      u = u' /\ truthy_str s = truthy_str s' /\ (truthy_str s = true -> s = s'))
  /\ get_cache_key "a:b" (Some "c"%string) = get_cache_key "a" (Some "b:c"%string).
Proof.
  split; [apply valid_ObjectId_colon_free|]. split; [|reflexivity].
  intros Hu Hu'. unfold get_cache_key.
  destruct s as [[|c sid]|], s' as [[|c' sid']|];
    rewrite ?append_cons, ?append_nil; simpl;
    try (intros [= E]; by subst);
    try (intros [= E]; discriminate);
    try discriminate.
  intros [= E]. apply (append_colon_inj u u') in E as [-> [= -> ->]]; done.
Qed.

Lemma get_cache_key_separates_witness : colon_free reader.
Proof.
  apply (proj1 (get_cache_key_separates reader reader None None)). reflexivity.
Defined.

(** ** Writing to and reading from the cache *)

Lemma reachable_write (lib : Lib) (now : Z) (cache : Cache) (client : RedisClient)
    (user_id : string) (recs : list Recommendation) (session_id : option string) :
  REDIS_AVAILABLE cache = true -> redis_client cache = Some client ->
  conn_up client = true ->
  cache_recommendations lib now cache user_id recs session_id
  = (Some (session_or_new lib now user_id session_id),
     {| REDIS_AVAILABLE := true;
        redis_client :=
          Some {| conn_up := true;
                  conn_data :=
                    <[get_cache_key user_id session_id :=
                        {| entry_value := recs;
                           entry_expires := now + 600 * 1000000 |}]>
                      (conn_data client) |} |}).
Proof.
  intros Ha Hc Hu. unfold cache_recommendations, redis_setex.
  by rewrite Ha, Hc, Hu.
Qed.

Lemma cache_write_then_read_aux (lib : Lib) (now : Z) (cache : Cache)
    (user_id : string) (recs : list Recommendation) (session_id : option string) :
  reachable cache ->
  forall now', now' < now + 600 * 1000000 ->
    get_cached_recommendations now'
      (cache_recommendations lib now cache user_id recs session_id).2
      user_id session_id = Some recs.
Proof.
  intros (client & Ha & Hc & Hu) now' Hlt.
  rewrite (reachable_write lib now cache client) by done. simpl.
  unfold get_cached_recommendations, redis_get. simpl.
  rewrite lookup_insert_eq. simpl.
  by rewrite (proj2 (Z.ltb_lt _ _) Hlt).
Qed.

(** X3.  On a reachable cache a write followed by a read of the same user and
    session returns exactly the list written for 600 seconds and nothing from
    then on; the write replaces whatever was stored under that key and leaves
    the reads of every other key as they were. *)
Theorem cache_write_then_read (lib : Lib) (now : Z) (cache : Cache)
    (user_id : string) (recs : list Recommendation) (session_id : option string) :
  reachable cache ->
  let cache' := (cache_recommendations lib now cache user_id recs session_id).2 in
  reachable cache'
  /\ (forall now', now' < now + 600 * 1000000 ->
        get_cached_recommendations now' cache' user_id session_id = Some recs)
  /\ (forall now', now + 600 * 1000000 <= now' ->
        get_cached_recommendations now' cache' user_id session_id = None)
  /\ (forall now' user_id' session_id',
        get_cache_key user_id' session_id' <> get_cache_key user_id session_id ->
        get_cached_recommendations now' cache' user_id' session_id'
        = get_cached_recommendations now' cache user_id' session_id').
Proof.
  intros (client & Ha & Hc & Hu) cache'. subst cache'.
  rewrite (reachable_write lib now cache client) by done. simpl.
  split; [eexists; done|].
  unfold get_cached_recommendations, redis_get. rewrite Ha, Hc, Hu. simpl.
  split; [|split].
  - intros now' Hlt. rewrite lookup_insert_eq. simpl.
    by rewrite (proj2 (Z.ltb_lt _ _) Hlt).
  - intros now' Hge. rewrite lookup_insert_eq. simpl.
    by rewrite (proj2 (Z.ltb_ge _ _) Hge).
  - intros now' user_id' session_id' Hne. by rewrite lookup_insert_ne.
Qed.

Lemma cache_write_then_read_witness :
  get_cached_recommendations (demo_now + 599999999)
    (cache_recommendations lib_demo demo_now (demo_cache 3) reader (demo_cached 5)
       demo_session).2 reader demo_session
  = Some (demo_cached 5).
Proof.
  assert (H : reachable (demo_cache 3)) by (eexists; done).
  apply (proj1 (proj2 (cache_write_then_read lib_demo demo_now (demo_cache 3) reader
                         (demo_cached 5) demo_session H))).
  unfold demo_now. lia.
Defined.

(** X4.  A request without session id stores its list under the per-user
    "latest" key but answers a session token whose key it never wrote: a read
    with the token answered finds exactly what the cache held under that key
    before, so when nothing was there the follow-up request bearing the token is
    regenerated instead of being served from the cache. *)
Theorem issued_session_is_not_cached (env : Env) (cache : Cache) (user_id : string)
    (req : Request) (p : Page) (cache' : Cache) (token : string) :
  truthy_str (req_session_id req) = false ->
  recommend env cache user_id req = (Success p, cache') ->
  resp_session_id p = Some token ->
  token <> ""%string ->
  (forall now', get_cached_recommendations now' cache' user_id (Some token)
                = get_cached_recommendations now' cache user_id (Some token))
  /\ forall (env2 : Env) (req2 : Request),
       req_session_id req2 = Some token ->
       get_cached_recommendations (env_now env2) cache user_id (Some token) = None ->
       recommend env2 cache' user_id req2
       = regenerate env2 cache' user_id (clamp_page (req_page req2))
           (clamp_limit (req_limit req2)) (Some token)
           (clamp_ratio (req_personalized_ratio req2)).
Proof.
  intros Hs Hrec Htok Hne.
  assert (Hread : forall now',
             get_cached_recommendations now' cache' user_id (Some token)
             = get_cached_recommendations now' cache user_id (Some token)).
  { unfold recommend in Hrec. rewrite Hs in Hrec. simpl in Hrec.
    unfold regenerate in Hrec.
    destruct (build_full_list env user_id _) as [[[full_list recs] liked]|e];
      [|discriminate].
    destruct (cache_recommendations (env_lib env) (env_now env) cache user_id
                full_list (req_session_id req)) as [tok c'] eqn:E.
    injection Hrec as _ <-.
    intros now'.
    unfold cache_recommendations in E.
    destruct (REDIS_AVAILABLE cache) eqn:Ha; [|by injection E as _ <-].
    destruct (redis_client cache) as [client|] eqn:Hc; [|by injection E as _ <-].
    unfold redis_setex in E.
    destruct (conn_up client) eqn:Hu; [|by injection E as _ <-].
    injection E as _ <-.
    unfold get_cached_recommendations, redis_get. rewrite Ha, Hc, Hu. simpl.
    rewrite lookup_insert_ne; [done|].
    unfold get_cache_key.
    destruct (req_session_id req) as [[|c0 s0]|]; try discriminate;
      destruct token; try done; rewrite ?append_cons; discriminate. }
  split; [exact Hread|].
  intros env2 req2 Hs2 Hnone. unfold recommend.
  rewrite Hs2, Hread, Hnone.
  by destruct (truthy_str (Some token) && negb (req_refresh req2)).
Qed.

Lemma issued_session_is_not_cached_witness :
  exists (p : Page) (cache' : Cache) (token : string),
    recommend demo_env (demo_cache 3) reader first_request = (Success p, cache')
    /\ resp_session_id p = Some token
    /\ get_cached_recommendations demo_now cache' reader (Some token) = None.
Proof.
  destruct (recommend demo_env (demo_cache 3) reader first_request)
    as [[p|e] cache'] eqn:E; [|vm_compute in E; discriminate E].
  exists p, cache', "0123456789abcdef"%string.
  assert (Htok : resp_session_id p = Some "0123456789abcdef"%string).
  { vm_compute in E. injection E as <- _. reflexivity. }
  split; [reflexivity|]. split; [exact Htok|].
  rewrite (proj1 (issued_session_is_not_cached demo_env (demo_cache 3) reader
                    first_request p cache' "0123456789abcdef" eq_refl E Htok
                    ltac:(discriminate))).
  vm_compute. reflexivity.
Defined.

(** ** The pages of a response *)

Lemma serve_cached_page_of (user_id : string) (page limit : Z)
    (session_id : option string) (cached : list Recommendation) (p : Page) :
  serve_cached user_id page limit session_id cached = Some p ->
  page_of cached page limit p /\ resp_cache p = hit /\ resp_user p = user_id
  /\ resp_stats p = None.
Proof.
  unfold serve_cached. destruct cached as [|r cached]; [discriminate|].
  destruct (_ && _); [discriminate|]. intros [= <-]. by repeat split.
Qed.

Lemma type_counts (l : list Recommendation) :
  (length (List.filter (is_type Popular) l)
   + length (List.filter (is_type Personalized) l) = length l)%nat.
Proof.
  induction l as [|r l IH]; [done|]. cbn [List.filter].
  assert (H : is_type Popular r = negb (is_type Personalized r))
    by (unfold is_type; by destruct (recommendation_type r)).
  rewrite H. destruct (is_type Personalized r); cbn [length negb]; lia.
Qed.

Lemma regenerate_page_of (env : Env) (cache : Cache) (user_id : string)
    (page limit : Z) (session_id : option string) (ratio : Q) (p : Page)
    (cache' : Cache) :
  regenerate env cache user_id page limit session_id ratio = (Success p, cache') ->
  exists full_list recommendations liked st,
    build_full_list env user_id ratio = Ok (full_list, recommendations, liked)
    /\ page_of full_list page limit p /\ resp_cache p = miss
    /\ resp_user p = user_id
    /\ resp_stats p = Some st
    /\ (total_popular st + total_personalized st = length full_list)%nat.
Proof.
  unfold regenerate.
  destruct (build_full_list env user_id ratio) as [[[full_list recs] liked]|e];
    [|discriminate].
  destruct (cache_recommendations _ _ _ _ _ _) as [tok c'].
  intros [= <- _]. eexists full_list, recs, liked, _.
  split; [done|]. split; [by repeat split|]. do 3 (split; [done|]).
  apply type_counts.
Qed.

Lemma py_slice_length {A} (l : list A) (start stop : Z) :
  0 <= start ->
  Z.of_nat (length (py_slice l start stop))
  = Z.max 0 (Z.min (stop - start) (Z.of_nat (length l) - start)).
Proof.
  intros H. unfold py_slice. rewrite length_take, length_drop. lia.
Qed.

(** X5.  Every successful answer of [recommend] is a well-formed page of one
    list: the page number is at least 1, the limit lies in [[5, 20]],
    [results_count] is the number of recommendations returned, which is
    [min(limit, total - start)] (0 past the end) and so never more than 20,
    and [has_more] holds exactly when items remain after the page.  A miss
    additionally carries statistics whose popular and personalized counts add
    up to [total]. *)
Theorem recommend_answers_a_page (env : Env) (cache : Cache) (user_id : string)
    (req : Request) (p : Page) (cache' : Cache) :
  recommend env cache user_id req = (Success p, cache') ->
  resp_user p = user_id
  /\ resp_page p = Z.max 1 (req_page req)
  /\ resp_limit p = Z.min 20 (Z.max 5 (req_limit req))
  /\ resp_results_count p = length (resp_recommendations p)
  /\ Z.of_nat (resp_results_count p)
     = Z.max 0 (Z.min (resp_limit p)
                  (Z.of_nat (resp_total p) - (resp_page p - 1) * resp_limit p))
  /\ (resp_results_count p <= 20)%nat
  /\ (resp_has_more p = true
      <-> resp_page p * resp_limit p < Z.of_nat (resp_total p))
  /\ (resp_cache p = miss ->
      exists st, resp_stats p = Some st
                 /\ (total_popular st + total_personalized st = resp_total p)%nat).
Proof.
  intros H.
  assert (Hpage : clamp_page (req_page req) = Z.max 1 (req_page req)).
  { unfold clamp_page. destruct (Z.ltb_spec (req_page req) 1); lia. }
  assert (Hlimit : clamp_limit (req_limit req) = Z.min 20 (Z.max 5 (req_limit req))).
  { unfold clamp_limit, MIN_PAGE_SIZE, MAX_PAGE_SIZE.
    destruct (Z.ltb_spec (req_limit req) 5); [simpl; lia|].
    destruct (Z.ltb_spec 20 (req_limit req)); lia. }
  assert (Hp : exists l, page_of l (clamp_page (req_page req))
                           (clamp_limit (req_limit req)) p
                         /\ resp_user p = user_id
                         /\ (resp_cache p = miss ->
                             exists st, resp_stats p = Some st
                               /\ (total_popular st + total_personalized st
                                   = length l)%nat)).
  { unfold recommend in H.
    destruct (if truthy_str (req_session_id req) && negb (req_refresh req)
              then _ else _) as [p0|] eqn:E.
    - injection H as <- <-.
      destruct (truthy_str (req_session_id req) && negb (req_refresh req));
        [|discriminate].
      destruct (get_cached_recommendations _ _ _ _) as [cached|]; [|discriminate].
      apply serve_cached_page_of in E as (Hpo & Hhit & Hu & _).
      exists cached. split; [done|]. split; [done|]. congruence.
    - apply regenerate_page_of in H
        as (full_list & recs & liked & st & _ & Hpo & _ & Hu & Hst & Hsum).
      exists full_list. split; [done|]. split; [done|]. eauto. }
  destruct Hp as (l & (Hpg & Hlm & Htot & Hrecs & Hcount & Hmore) & Hu & Hstats).
  rewrite Hpage in Hpg. rewrite Hlimit in Hlm.
  assert (Hlen : Z.of_nat (resp_results_count p)
                 = Z.max 0 (Z.min (resp_limit p)
                              (Z.of_nat (resp_total p)
                               - (resp_page p - 1) * resp_limit p))).
  { rewrite Hcount, Hrecs, py_slice_length by (rewrite Hpage, Hlimit; nia).
    rewrite Htot, Hpg, Hlm, Hpage, Hlimit. f_equal. f_equal; lia. }
  split; [done|]. split; [done|]. split; [done|]. split; [done|].
  split; [exact Hlen|]. split; [lia|]. split.
  - rewrite Hmore, Z.ltb_lt, Htot, Hpg, Hlm, Hpage, Hlimit. lia.
  - rewrite Htot. exact Hstats.
Qed.

Lemma recommend_answers_a_page_witness :
  exists (p : Page) (cache' : Cache),
    recommend demo_env (demo_cache 25) reader (demo_request 2) = (Success p, cache')
    /\ resp_results_count p = length (resp_recommendations p)
    /\ (resp_results_count p <= 20)%nat.
Proof.
  destruct (recommend demo_env (demo_cache 25) reader (demo_request 2))
    as [[p|e] cache'] eqn:E; [|vm_compute in E; discriminate E].
  exists p, cache'. split; [reflexivity|].
  destruct (recommend_answers_a_page _ _ _ _ _ _ E) as (_ & _ & _ & H1 & _ & H2 & _).
  split; [exact H1 | exact H2].
Defined.

(** ** Cache hits, refreshes and the fixed-ratio routes *)

Lemma recommend_from_cache (env : Env) (cache : Cache) (user_id : string)
    (req : Request) (p : Page) (cache' : Cache) :
  recommend env cache user_id req = (Success p, cache') ->
  resp_cache p = hit ->
  truthy_str (req_session_id req) = true /\ req_refresh req = false
  /\ exists cached,
       get_cached_recommendations (env_now env) cache user_id (req_session_id req)
       = Some cached
       /\ serve_cached user_id (clamp_page (req_page req))
            (clamp_limit (req_limit req)) (req_session_id req) cached = Some p
       /\ cache' = cache.
Proof.
  unfold recommend. intros H Hhit.
  destruct (truthy_str (req_session_id req)) eqn:Hs; simpl in H.
  2:{ apply regenerate_outcome in H as [(e & [=] & _) | (p' & [= <-] & Hm)].
      congruence. }
  destruct (req_refresh req) eqn:Hr; simpl in H.
  { apply regenerate_outcome in H as [(e & [=] & _) | (p' & [= <-] & Hm)].
    congruence. }
  split; [done|]. split; [done|].
  destruct (get_cached_recommendations _ _ _ _) as [cached|].
  2:{ apply regenerate_outcome in H as [(e & [=] & _) | (p' & [= <-] & Hm)].
      congruence. }
  exists cached. split; [done|].
  destruct (serve_cached _ _ _ _ _) as [p0|].
  - by injection H as -> ->.
  - apply regenerate_outcome in H as [(e & [=] & _) | (p' & [= <-] & Hm)].
    congruence.
Qed.

(** X6.  A cache hit needs a session id and no refresh; with [refresh=true] or
    without session id every successful answer is a miss.  A hit does not look
    at the personalization ratio: when a request is answered from the cache,
    the same request through [/personalized], [/popular] or [/balanced], or
    with any other ratio, gets the identical answer. *)
Theorem cached_page_ignores_ratio (env : Env) (cache : Cache) (user_id : string)
    (req : Request) (p : Page) (cache' : Cache) :
  recommend env cache user_id req = (Success p, cache') ->
  (req_refresh req = true \/ truthy_str (req_session_id req) = false ->
   resp_cache p = miss)
  /\ (resp_cache p = hit ->
      (forall ratio, recommend env cache user_id (with_ratio req ratio)
                     = (Success p, cache'))
      /\ recommend_personalized env cache user_id req = (Success p, cache')
      /\ recommend_popular env cache user_id req = (Success p, cache')
      /\ recommend_balanced env cache user_id req = (Success p, cache')).
Proof.
  intros H. split.
  - intros Hor. destruct (resp_cache p) eqn:Hc; [|done].
    destruct (recommend_from_cache _ _ _ _ _ _ H Hc) as (Hs & Hr & _).
    destruct Hor; congruence.
  - intros Hhit.
    destruct (recommend_from_cache _ _ _ _ _ _ H Hhit)
      as (Hs & Hr & cached & Hget & Hserve & ->).
    assert (Hall : forall ratio, recommend env cache user_id (with_ratio req ratio)
                                 = (Success p, cache)).
    { intros ratio. unfold recommend, with_ratio. simpl.
      by rewrite Hs, Hr, Hget, Hserve. }
    split; [exact Hall|].
    unfold recommend_personalized, recommend_popular, recommend_balanced.
    by rewrite !Hall.
Qed.

Lemma cached_page_ignores_ratio_witness :
  recommend_popular demo_env (demo_cache 25) reader (demo_request 2)
  = recommend_personalized demo_env (demo_cache 25) reader (demo_request 2).
Proof.
  destruct (recommend demo_env (demo_cache 25) reader (demo_request 2))
    as [[p|e] cache'] eqn:E; [|vm_compute in E; discriminate E].
  assert (Hh : resp_cache p = hit).
  { vm_compute in E. injection E as <- _. reflexivity. }
  destruct (proj2 (cached_page_ignores_ratio _ _ _ _ _ _ E) Hh) as (_ & H1 & H2 & _).
  by rewrite H1, H2.
Defined.

(** X7.  Pages of one session come from one list.  After a regeneration
    stored its list under the caller's session id on a reachable cache, a later
    request of the same user and session without refresh, made less than 600
    seconds later, is served from the cache whenever its page ends before the
    end of that list or the list holds at least 100 items, and the page served
    is the corresponding slice of the list generated earlier. *)
Theorem session_pages_share_one_list (env : Env) (cache : Cache) (user_id : string)
    (req : Request) (full_list : list Recommendation)
    (recommendations : list Scored) (liked : gset string) :
  reachable cache ->
  truthy_str (req_session_id req) = true ->
  build_full_list env user_id (clamp_ratio (req_personalized_ratio req))
  = Ok (full_list, recommendations, liked) ->
  let cache' :=
    (regenerate env cache user_id (clamp_page (req_page req))
       (clamp_limit (req_limit req)) (req_session_id req)
       (clamp_ratio (req_personalized_ratio req))).2 in
  forall (env2 : Env) (req2 : Request),
    req_session_id req2 = req_session_id req ->
    req_refresh req2 = false ->
    env_now env2 < env_now env + 600 * 1000000 ->
    let page := clamp_page (req_page req2) in
    let limit := clamp_limit (req_limit req2) in
    page * limit < Z.of_nat (length full_list) \/ 100 <= Z.of_nat (length full_list) ->
    exists p : Page,
      recommend env2 cache' user_id req2 = (Success p, cache')
      /\ resp_cache p = hit
      /\ resp_total p = length full_list
      /\ resp_recommendations p
         = take (Z.to_nat limit) (drop (Z.to_nat ((page - 1) * limit)) full_list).
Proof.
  intros Hreach Hs Hbuild cache' env2 req2 Hs2 Hr2 Hnow page limit Hfits.
  assert (Hc' : cache' = (cache_recommendations (env_lib env) (env_now env) cache
                            user_id full_list (req_session_id req)).2).
  { subst cache'. unfold regenerate. rewrite Hbuild.
    by destruct (cache_recommendations _ _ _ _ _ _). }
  assert (Hget : get_cached_recommendations (env_now env2) cache' user_id
                   (req_session_id req2) = Some full_list).
  { rewrite Hc', Hs2.
    by apply (cache_write_then_read_aux (env_lib env) (env_now env) cache user_id
                full_list (req_session_id req) Hreach). }
  rewrite (recommend_read_path env2 cache' user_id req2 full_list);
    [|by rewrite Hs2|done|done].
  fold page limit.
  destruct (serve_cached_spec user_id page limit (req_session_id req2) full_list)
    as [_ Hhit].
  { apply clamp_page_ge. }
  { pose proof (clamp_limit_range (req_limit req2)). subst limit. lia. }
  rewrite Hhit by lia.
  eexists. split; [reflexivity|]. split; [done|]. split; [done|].
  simpl. unfold py_slice. do 2 f_equal. lia.
Qed.

Lemma session_pages_share_one_list_witness :
  exists p : Page,
    recommend busy_env
      (recommend busy_env (demo_cache 0) reader (short_request 2)).2
      reader (short_request 1)
    = (Success p, (recommend busy_env (demo_cache 0) reader (short_request 2)).2)
    /\ resp_cache p = hit /\ resp_total p = 8%nat.
Proof.
  destruct (build_full_list busy_env reader
              (clamp_ratio (req_personalized_ratio (short_request 2))))
    as [[[full recs] liked]|e] eqn:E; [|vm_compute in E; discriminate E].
  assert (Hlen : length full = 8%nat).
  { vm_compute in E. injection E as <- _ _. reflexivity. }
  assert (Hreach : reachable (demo_cache 0)).
  { eexists. split; [reflexivity|]. split; reflexivity. }
  destruct (session_pages_share_one_list busy_env (demo_cache 0) reader
              (short_request 2) full recs liked Hreach eq_refl E
              busy_env (short_request 1) eq_refl eq_refl ltac:(simpl; lia))
    as (p & H1 & H2 & H3 & _).
  { left. rewrite Hlen. vm_compute. reflexivity. }
  exists p. split; [|split; [exact H2 | by rewrite H3]].
  replace (recommend busy_env (demo_cache 0) reader (short_request 2)).2
    with (regenerate busy_env (demo_cache 0) reader
            (clamp_page (req_page (short_request 2)))
            (clamp_limit (req_limit (short_request 2)))
            (req_session_id (short_request 2))
            (clamp_ratio (req_personalized_ratio (short_request 2)))).2
    by (vm_compute; reflexivity).
  exact H1.
Defined.

(** ** The regenerated list *)

Lemma mapM_elem {A B} (f : A -> Result B) (l : list A) (l' : list B) (y : B) :
  mapM f l = Ok l' -> y ∈ l' -> exists x, x ∈ l /\ f x = Ok y.
Proof.
  intros H Hy. apply mapM_Forall2 in H.
  apply list_elem_of_lookup in Hy as [i Hi].
  destruct (Forall2_lookup_r _ _ _ _ _ H Hi) as (x & Hx & Hf).
  exists x. split; [by eapply list_elem_of_lookup_2 | done].
Qed.

Lemma mapM_length {A B} (f : A -> Result B) (l : list A) (l' : list B) :
  mapM f l = Ok l' -> length l' = length l.
Proof. intros H. apply mapM_Forall2 in H. symmetry. by eapply Forall2_length. Qed.

Lemma build_full_list_inv (env : Env) (user_id : string) (r : Q)
    (full_list : list Recommendation) (recommendations : list Scored)
    (liked : gset string) :
  build_full_list env user_id r = Ok (full_list, recommendations, liked) ->
  exists feeds_map,
    generate_recommendations_for_user env user_id
      (get_user_seen_items (env_db env) user_id
       ∪ get_user_created_items (env_db env) user_id)
    = Ok (recommendations, feeds_map)
    /\ liked = user_liked_items_of (env_db env) user_id
    /\ mapM (annotate feeds_map (friend_map_of (env_db env) user_id))
         (filter (fun c => in_set (s_item_id (base c)) liked = false)
            (mix (rnd (env_lib env)) r (categorize <$> recommendations)))
       = Ok full_list.
Proof.
  unfold build_full_list. intros H.
  apply bind_Ok in H as ([recs feeds_map] & Hgen & H).
  apply bind_Ok in H as (full & Hfull & H). injection H as <- <- <-.
  by exists feeds_map.
Qed.

(** X8.  Nothing the user has liked is recommended: whenever the likes
    collection holds a like of the user whose target ([targetId], or [feedId]
    when there is no [targetId]) is [t], no entry of the regenerated list has
    [item_id] [t], whatever source proposed it. *)
Theorem liked_items_are_filtered (env : Env) (user_id : string) (ratio : Q)
    (full_list : list Recommendation) (recommendations : list Scored)
    (liked : gset string) :
  build_full_list env user_id ratio = Ok (full_list, recommendations, liked) ->
  forall (user_oid : string) (l : Like) (t : string),
    ObjectId_of user_id = Some user_oid ->
    l ∈ likes_col (env_db env) ->
    like_userId l = Some user_oid ->
    like_target l = Some t ->
    forall rec, rec ∈ full_list -> rec_item_id rec <> Some t.
Proof.
  intros H user_oid l t Hoid Hl Hu Ht rec Hrec Hid.
  apply build_full_list_inv in H as (feeds_map & _ & -> & Hfull).
  destruct (mapM_elem _ _ _ _ Hfull Hrec) as (c & Hc & Hann).
  apply list_elem_of_filter in Hc as [Hc _].
  apply annotate_id in Hann. unfold cat_id in Hann.
  rewrite <- Hann, Hid in Hc. simpl in Hc.
  apply bool_decide_eq_false in Hc. apply Hc.
  unfold user_liked_items_of. rewrite Hoid.
  apply elem_of_list_to_set, list_elem_of_omap.
  exists l. split; [|done]. apply list_elem_of_filter. by split.
Qed.

Lemma liked_items_are_filtered_witness :
  length (full_list_of liking_env reader 0.7) = 7%nat
  /\ Forall (fun rec => rec_item_id rec <> Some (feed_id (busy_post 0)))
       (full_list_of liking_env reader 0.7).
Proof.
  split; [vm_compute; reflexivity|].
  unfold full_list_of.
  destruct (build_full_list liking_env reader 0.7)
    as [[[full recs] liked]|e] eqn:E; [|constructor].
  apply Forall_forall. intros rec Hrec.
  apply (liked_items_are_filtered liking_env reader 0.7 full recs liked E reader
           {| like_userId := Some reader; like_feedId := None;
              like_targetId := Some (feed_id (busy_post 0)) |}
           (feed_id (busy_post 0))).
  - vm_compute. reflexivity.
  - apply list_elem_of_here.
  - reflexivity.
  - reflexivity.
  - exact Hrec.
Defined.

Lemma mix_elem (rnd : nat -> nat) (r : Q) (cats : list Categorized) (c : Categorized) :
  c ∈ mix rnd r cats -> c ∈ cats.
Proof.
  assert (Hpre : forall (l : list Categorized) n x, x ∈ py_prefix l n -> x ∈ l).
  { intros l n x. unfold py_prefix.
    destruct (0 <=? n); intros Hx; eapply elem_of_sublist; eauto using sublist_take. }
  assert (Hsh : forall x, x ∈ shuffle rnd
                  (py_prefix (filter (fun r => is_popular r <> true) cats)
                     (num_personalized_of (total_needed_of cats) r)
                   ++ py_prefix (filter (fun r => is_popular r = true) cats)
                        (total_needed_of cats
                         - num_personalized_of (total_needed_of cats) r))
                -> x ∈ cats).
  { intros x. rewrite (shuffle_perm rnd), elem_of_app.
    intros [Hx | Hx]; apply Hpre, list_elem_of_filter in Hx; tauto. }
  unfold mix. cbv zeta.
  destruct (_ <? _).
  - rewrite elem_of_app. intros [Hc | Hc]; [by apply Hsh|].
    apply Hpre, list_elem_of_filter in Hc. tauto.
  - apply Hsh.
Qed.

(** X9.  What a regeneration can return.  For a ratio in [0, 1] (the handler
    clamps it) the full list never holds more than 100 entries nor more than
    the scoring stage produced, and every entry is one of the scored
    candidates: same identifier, score, category and popularity, tagged
    [popular] exactly when that popularity exceeds 0.5, with the friends who
    liked it read from the friend map and [metadata] present exactly when an
    item document is known. *)
Theorem full_list_entries_are_scored (env : Env) (user_id : string) (ratio : Q)
    (full_list : list Recommendation) (recommendations : list Scored)
    (liked : gset string) :
  (0 <= ratio <= 1)%Q ->
  build_full_list env user_id ratio = Ok (full_list, recommendations, liked) ->
  (length full_list <= 100)%nat
  /\ (length full_list <= length recommendations)%nat
  /\ exists feeds_map,
       generate_recommendations_for_user env user_id
         (get_user_seen_items (env_db env) user_id
          ∪ get_user_created_items (env_db env) user_id)
       = Ok (recommendations, feeds_map)
       /\ forall rec, rec ∈ full_list ->
       exists s,
         s ∈ recommendations
         /\ rec_item_id rec = s_item_id s
         /\ rec_score rec = score s
         /\ rec_category rec = s_category s
         /\ rec_popularity rec = popularity s
         /\ (recommendation_type rec = Popular <-> (0.5 < popularity s)%Q)
         /\ friend_liked_by rec
            = default [] (od_get_opt (friend_map_of (env_db env) user_id) (s_item_id s))
         /\ (metadata rec = None <->
             s_feed_data s = None /\ od_get_opt feeds_map (s_item_id s) = None).
Proof.
  intros Hr H.
  apply build_full_list_inv in H as (feeds_map & Hgen & -> & Hfull).
  pose proof (generate_ids_unique _ _ _ _ _ Hgen) as Hnd.
  assert (Hlen : (length full_list
                  <= Nat.min (length recommendations) 100)%nat).
  { rewrite (mapM_length _ _ _ Hfull).
    etrans; [apply length_filter|].
    rewrite mix_length; [|by rewrite categorize_ids|done].
    by rewrite length_fmap. }
  split; [lia|]. split; [lia|].
  exists feeds_map. split; [done|].
  intros rec Hrec.
  destruct (mapM_elem _ _ _ _ Hfull Hrec) as (c & Hc & Hann).
  apply list_elem_of_filter in Hc as [_ Hc].
  apply mix_elem, list_elem_of_fmap in Hc as (s & -> & Hs).
  exists s. split; [done|].
  unfold annotate in Hann. apply bind_Ok in Hann as (md & Hmd & Hann).
  injection Hann as <-. simpl.
  split; [done|]. split; [done|]. split; [done|]. split; [done|].
  split; [|split; [done|]].
  - destruct (Qle_bool (popularity s) 0.5) eqn:E; simpl.
    + apply Qle_bool_iff in E. split; [done|].
      intros Hlt. exfalso. apply (Qlt_not_le _ _ Hlt E).
    + split; [intros _|done]. apply Qnot_le_lt. intros Hle.
      apply Qle_bool_iff in Hle. congruence.
  - simpl in Hmd. destruct (s_feed_data s) as [f|]; simpl in Hmd.
    + apply bind_Ok in Hmd as (cr & _ & Hmd). injection Hmd as <-.
      split; [done | by intros [? _]].
    + destruct (od_get_opt feeds_map (s_item_id s)) as [f|]; simpl in Hmd.
      * apply bind_Ok in Hmd as (cr & _ & Hmd). injection Hmd as <-.
        split; [done | by intros [_ ?]].
      * by injection Hmd as <-.
Qed.

Lemma full_list_entries_are_scored_witness :
  (length (full_list_of busy_env reader 0.7) <= 100)%nat.
Proof.
  unfold full_list_of.
  destruct (build_full_list busy_env reader 0.7)
    as [[[full recs] liked]|e] eqn:E; [|simpl; lia].
  assert (Hr : (0 <= 0.7 <= 1)%Q) by (split; vm_compute; discriminate).
  exact (proj1 (full_list_entries_are_scored busy_env reader 0.7 full recs liked Hr E)).
Defined.

(** ** Order and first-wins fields of the merge *)

Lemma merge_step_keys (acc : list (option string * Candidate)) (c : Candidate) :
  od_keys (merge_step acc c)
  = if decide (item_id c ∈ od_keys acc) then od_keys acc
    else od_keys acc ++ [item_id c].
Proof.
  unfold merge_step.
  destruct (od_get acc (item_id c)) as [m|] eqn:E; rewrite od_keys_set, E.
  - rewrite decide_True; [done|]. by eapply od_get_Some_keys.
  - rewrite decide_False; [done|]. by apply od_get_None.
Qed.

Lemma merge_fold_keys (cs : list Candidate) (acc : list (option string * Candidate)) :
  od_keys (fold_left merge_step cs acc)
  = fold_left (fun ks k => if decide (k ∈ ks) then ks else ks ++ [k])
      (item_id <$> cs) (od_keys acc).
Proof.
  revert acc. induction cs as [|c cs IH]; intros acc; [done|].
  simpl. by rewrite IH, merge_step_keys.
Qed.

Lemma merge_first_fields (cs : list Candidate) :
  forall k m, od_get (fold_left merge_step cs []) k = Some m ->
    exists c, head (occurrences k cs) = Some c
              /\ category m = category c
              /\ popularity_score m = popularity_score c.
Proof.
  induction cs as [|x pre IH] using rev_ind; [done|].
  intros k m. rewrite fold_left_app. simpl.
  set (acc := fold_left merge_step pre []) in *.
  rewrite occurrences_snoc.
  unfold merge_step.
  destruct (od_get acc (item_id x)) as [m0|] eqn:E; rewrite od_get_set.
  - destruct (decide (k = item_id x)) as [->|Hne].
    + intros [= <-]. destruct (IH _ _ E) as (c & Hc & H1 & H2).
      exists c. simpl. split; [|done].
      destruct (occurrences (item_id x) pre); [done|]. by simpl in *.
    + intros Hm. destruct (IH _ _ Hm) as (c & Hc & H1 & H2).
      exists c. rewrite decide_False by congruence. by rewrite app_nil_r.
  - destruct (decide (k = item_id x)) as [->|Hne].
    + intros [= <-]. exists x. split; [|done].
      rewrite occurrences_absent, decide_True; [done..|].
      apply od_get_None in E. unfold acc in E.
      rewrite merge_fold_keys in E.
      intros Hin. apply E. clear -Hin.
      assert (Hgen : forall l ks (a : option string),
                 a ∈ ks \/ a ∈ l ->
                 a ∈ fold_left (fun ks k => if decide (k ∈ ks) then ks else ks ++ [k])
                       l ks).
      { induction l as [|b l IHl]; intros ks a [H|H]; simpl.
        - done.
        - by apply elem_of_nil in H.
        - apply IHl. left. destruct (decide (b ∈ ks)); [done|].
          apply elem_of_app. by left.
        - apply elem_of_cons in H as [->|H].
          + apply IHl. left. destruct (decide (b ∈ ks)); [done|].
            apply elem_of_app. right. apply list_elem_of_here.
          + apply IHl. by right. }
      apply Hgen. by right.
    + intros Hm. destruct (IH _ _ Hm) as (c & Hc & H1 & H2).
      exists c. rewrite decide_False by congruence. by rewrite app_nil_r.
Qed.

(** X10.  The merged list keeps the candidates in the order in which their
    identifiers first appear in the input, and the fields the merge does not
    combine, [category] and [popularity_score], are those of the first
    candidate that carried the identifier: a later source cannot change
    them. *)
Theorem merge_candidates_first_wins (candidate_lists : list (list Candidate)) :
  item_id <$> merge_candidates candidate_lists
  = first_seen (item_id <$> concat candidate_lists)
  /\ forall m, m ∈ merge_candidates candidate_lists ->
       exists c, head (occurrences (item_id m) (concat candidate_lists)) = Some c
                 /\ category m = category c
                 /\ popularity_score m = popularity_score c.
Proof.
  unfold merge_candidates.
  destruct (merge_keys_ok (concat candidate_lists)) as [Hnd Hid].
  cbv zeta in Hnd, Hid.
  split.
  - rewrite merged_values_ids by done. by rewrite merge_fold_keys.
  - intros m Hm. unfold od_values in Hm.
    apply list_elem_of_fmap in Hm as ([k m'] & -> & Hkm). simpl.
    apply od_elem_get in Hkm; [|done].
    rewrite (Hid _ _ Hkm). by apply merge_first_fields.
Qed.

(** ** Order of the scored list *)

Lemma insert_desc_descending (x : Scored) (l : list Scored) :
  descending l -> descending (insert_desc by_score x l).
Proof.
  induction l as [|y r IH]; simpl; [done|].
  intros [Hall Hr]. unfold by_score at 1.
  destruct (Qle_bool (score y) (score x)) eqn:E; simpl.
  - apply Qle_bool_iff in E. split; [|done].
    constructor; [done|].
    eapply Forall_impl; [exact Hall|]. simpl. intros b Hb. eapply Qle_trans; eassumption.
  - split; [|by apply IH].
    rewrite insert_desc_perm. constructor; [|done].
    apply Qlt_le_weak, Qnot_le_lt. intros Hle.
    apply Qle_bool_iff in Hle. congruence.
Qed.

Lemma sorted_desc_descending (l : list Scored) : descending (sorted_desc by_score l).
Proof.
  induction l as [|x l IH]; simpl; [done|]. by apply insert_desc_descending.
Qed.

Lemma insert_desc_with_score (q : Q) (x : Scored) (l : list Scored) :
  with_score q (insert_desc by_score x l) = with_score q (x :: l).
Proof.
  unfold with_score.
  induction l as [|y r IH]; simpl; [done|].
  unfold by_score at 1.
  destruct (Qle_bool (score y) (score x)) eqn:E; [done|].
  rewrite filter_cons, IH, !filter_cons.
  destruct (decide (Qeq_bool (score x) q = true)) as [Hx|Hx]; [|done].
  destruct (decide (Qeq_bool (score y) q = true)) as [Hy|Hy]; [|done].
  exfalso. apply Qeq_bool_iff in Hx, Hy.
  assert (Hle : Qle_bool (score y) (score x) = true).
  { apply Qle_bool_iff. rewrite Hx, Hy. apply Qle_refl. }
  congruence.
Qed.

Lemma sorted_desc_with_score (q : Q) (l : list Scored) :
  with_score q (sorted_desc by_score l) = with_score q l.
Proof.
  induction l as [|x l IH]; [done|].
  simpl. rewrite insert_desc_with_score.
  unfold with_score in *. by rewrite !filter_cons, IH.
Qed.

(** X11.  The scored list is ranked: [compute_hybrid] returns its entries in
    descending order of final score, one entry per candidate, and entries
    with equal scores stay in the order of their candidates (the sort is
    stable). *)
Theorem compute_hybrid_is_ranked (lib : Lib) (db : DB) (now : Z) (user_id : string)
    (candidates : list Candidate) (scored : list Scored) :
  compute_hybrid lib db now user_id candidates = Ok scored ->
  descending scored
  /\ exists unsorted,
       Forall2 (fun c s => score_candidate lib db now user_id
                             (candidate_social_boost db user_id) c = Ok s)
         candidates unsorted
       /\ scored ≡ₚ unsorted
       /\ forall q, with_score q scored = with_score q unsorted.
Proof.
  intros H. apply compute_hybrid_inv in H as (unsorted & Hall & ->).
  split; [apply sorted_desc_descending|].
  exists unsorted. split; [done|]. split; [apply sorted_desc_perm|].
  intros q. apply sorted_desc_with_score.
Qed.

Lemma compute_hybrid_is_ranked_witness :
  descending
    (match compute_hybrid lib_demo busy_db demo_now reader
             (candidate_followed_users busy_db reader 50) with
     | Ok scored => scored
     | Raise _ => []
     end).
Proof.
  destruct (compute_hybrid lib_demo busy_db demo_now reader
              (candidate_followed_users busy_db reader 50)) as [scored|e] eqn:E;
    [|exact I].
  exact (proj1 (compute_hybrid_is_ranked _ _ _ _ _ _ E)).
Defined.

(** ** Inputs on which scoring raises *)






(** ** The social boost *)



(** ** Sorted cursors with a limit *)

Section top_n.
Context {A : Type} (le : A -> A -> bool).
Hypothesis le_total : forall a b, le a b = true \/ le b a = true.
Hypothesis le_trans : forall a b c, le a b = true -> le b c = true -> le a c = true.

Lemma insert_desc_split (x : A) (l : list A) :
  (forall pre a post b, l = pre ++ a :: post -> b ∈ post -> le b a = true) ->
  forall pre a post b,
    insert_desc le x l = pre ++ a :: post -> b ∈ post -> le b a = true.
Proof.
  induction l as [|y r IH]; simpl; intros Hl pre a post b Heq Hb.
  - destruct pre as [|p pre]; simplify_eq/=; [by apply elem_of_nil in Hb|].
    by destruct pre.
  - assert (Hy : forall b, b ∈ r -> le b y = true)
      by (intros b' Hb'; by apply (Hl [] y r b')).
    assert (Hr : forall pre a post b, r = pre ++ a :: post -> b ∈ post ->
                                      le b a = true).
    { intros pre' a' post' b' -> Hb'. by apply (Hl (y :: pre') a' post' b'). }
    destruct (le y x) eqn:E.
    + destruct pre as [|p pre]; simplify_eq/=.
      * apply elem_of_cons in Hb as [->|Hb]; [done|]. eauto.
      * by apply (Hl pre a post b).
    + destruct pre as [|p pre]; simplify_eq/=.
      * rewrite insert_desc_perm in Hb.
        apply elem_of_cons in Hb as [->|Hb]; [|by apply Hy].
        match goal with
        | |- le ?u ?v = true => destruct (le_total u v) as [?|?]; [done|congruence]
        end.
      * by apply (IH Hr pre a post b).
Qed.

Lemma sorted_desc_split (l : list A) :
  forall pre a post b,
    sorted_desc le l = pre ++ a :: post -> b ∈ post -> le b a = true.
Proof.
  induction l as [|x l IH]; simpl.
  - intros pre a post b H. by destruct pre.
  - by apply insert_desc_split.
Qed.

(** The first [n] documents of a cursor sorted in descending order: they are
    in descending order, and none of the documents left out ranks above one
    of them. *)
Lemma top_n_spec (n : nat) (l : list A) :
  let selected := take n (sorted_desc le l) in
  let omitted := drop n (sorted_desc le l) in
  selected ++ omitted ≡ₚ l
  /\ length selected = Nat.min n (length l)
  /\ (forall a b, a ∈ selected -> b ∈ omitted -> le b a = true)
  /\ (forall pre a post b, selected = pre ++ a :: post -> b ∈ post -> le b a = true).
Proof.
  cbv zeta. split; [by rewrite take_drop, sorted_desc_perm|].
  split; [by rewrite length_take, (Permutation_length (sorted_desc_perm le l)); lia|].
  split.
  - intros a b Ha Hb.
    apply list_elem_of_split in Ha as (pre & post & Hsel).
    apply (sorted_desc_split l pre a (post ++ drop n (sorted_desc le l)) b).
    + rewrite <- (take_drop n (sorted_desc le l)) at 1.
      rewrite Hsel. by rewrite <- app_assoc.
    + apply elem_of_app. by right.
  - intros pre a post b Hsel Hb.
    apply (sorted_desc_split l pre a (post ++ drop n (sorted_desc le l)) b).
    + rewrite <- (take_drop n (sorted_desc le l)) at 1.
      rewrite Hsel. by rewrite <- app_assoc.
    + apply elem_of_app. by left.
Qed.
End top_n.

Lemma length_omap_le {A B} (f : A -> option B) (l : list A) :
  (length (omap f l) <= length l)%nat.
Proof.
  induction l as [|x l IH]; [done|]. csimpl. destruct (f x); simpl; lia.
Qed.

Lemma string_compare_trans (a b c : string) :
  String.compare a b <> Gt -> String.compare b c <> Gt -> String.compare a c <> Gt.
Proof.
  revert b c. induction a as [|x a IH]; intros [|y b] [|z c]; simpl; try done.
  unfold Ascii.compare.
  destruct (N.compare_spec (N_of_ascii x) (N_of_ascii y)) as [Hxy|Hxy|Hxy];
    destruct (N.compare_spec (N_of_ascii y) (N_of_ascii z)) as [Hyz|Hyz|Hyz];
    destruct (N.compare_spec (N_of_ascii x) (N_of_ascii z)) as [Hxz|Hxz|Hxz];
    try done; try lia; eauto.
Qed.

Lemma ts_le_total (a b : option TsValue) : ts_le a b = true \/ ts_le b a = true.
Proof.
  destruct a as [[x|x]|], b as [[y|y]|]; simpl; auto.
  - lia.
  - rewrite (String.compare_antisym y x).
    destruct (String.compare x y); simpl; auto.
Qed.

Lemma ts_le_trans (a b c : option TsValue) :
  ts_le a b = true -> ts_le b c = true -> ts_le a c = true.
Proof.
  destruct a as [[x|x]|], b as [[y|y]|], c as [[z|z]|]; simpl; try done.
  - lia.
  - intros H1 H2.
    pose proof (string_compare_trans x y z) as H.
    destruct (String.compare x y); try done;
      destruct (String.compare y z); try done;
      destruct (String.compare x z); try done; exfalso; by apply H.
Qed.

Lemma optQ_le_total (a b : option Q) : optQ_le a b = true \/ optQ_le b a = true.
Proof.
  destruct a as [x|], b as [y|]; simpl; auto.
  destruct (Qlt_le_dec x y) as [H|H].
  - left. by apply Qle_bool_iff, Qlt_le_weak.
  - right. by apply Qle_bool_iff.
Qed.

Lemma optQ_le_trans (a b c : option Q) :
  optQ_le a b = true -> optQ_le b c = true -> optQ_le a c = true.
Proof.
  destruct a as [x|], b as [y|], c as [z|]; simpl; try done.
  rewrite !Qle_bool_iff. apply Qle_trans.
Qed.

(** X14.  Posts of followed accounts, newest first.  [candidate_followed_users]
    returns the [limit] most recent active posts of the accounts the user
    actively follows: every candidate is such a post with content score 0.9
    carrying its document, the candidates are in descending order of
    [createdAt], no matching post left out is more recent than a returned one,
    and min(limit, number of matching posts) candidates are returned. *)
Theorem candidate_followed_users_newest (db : DB) (user_id : string) (limit : nat) :
  let matching :=
    filter (fun f => feed_userId f ∈ friends_of db user_id /\ feed_status f = active)
      (feeds_col db) in
  exists selected omitted,
    candidate_followed_users db user_id limit = feed_candidate 0.9 <$> selected
    /\ selected ++ omitted ≡ₚ matching
    /\ length selected = Nat.min limit (length matching)
    /\ (forall a b, a ∈ selected -> b ∈ omitted ->
          ts_le (feed_createdAt b) (feed_createdAt a) = true)
    /\ (forall pre a post b, selected = pre ++ a :: post -> b ∈ post ->
          ts_le (feed_createdAt b) (feed_createdAt a) = true).
Proof.
  cbv zeta. unfold candidate_followed_users, friends_of.
  destruct (ObjectId_of user_id) as [user_oid|].
  2:{ exists [], []. rewrite filter_none by (intros x _ [H _]; by apply elem_of_nil in H).
      split; [done|]. split; [done|]. split; [simpl; lia|].
      split; [intros a b Ha; by apply elem_of_nil in Ha|].
      intros pre a post b Hl. by destruct pre. }
  destruct (following db user_oid) as [|f fs] eqn:Ef.
  { exists [], []. rewrite filter_none by (intros x _ [H _]; by apply elem_of_nil in H).
    split; [done|]. split; [done|]. split; [simpl; lia|].
    split; [intros a b Ha; by apply elem_of_nil in Ha|].
    intros pre a post b Hl. by destruct pre. }
  set (le := fun a b => ts_le (feed_createdAt a) (feed_createdAt b)).
  set (matching := filter _ (feeds_col db)).
  destruct (top_n_spec le (fun a b => ts_le_total _ _)
              (fun a b c => ts_le_trans _ _ _) limit matching)
    as (Hperm & Hlen & Hom & Hdesc).
  exists (take limit (sorted_desc le matching)), (drop limit (sorted_desc le matching)).
  split; [done|]. split; [done|]. split; [done|]. split; [exact Hom | exact Hdesc].
Qed.

(** X15.  Trending candidates are the most popular active explore entries:
    [candidate_trending] looks at the [limit] active entries of the explore
    collection with the highest [popularityScore] (a missing score ranks
    lowest), in descending order, and returns one candidate with content score
    0.5 and no document for each of them that has a [feedId]; an entry without
    [feedId] yields no candidate but still uses up one of the [limit] places. *)
Theorem candidate_trending_most_popular (db : DB) (limit : nat) :
  let matching := filter (fun e => explore_status e = active) (explore_feeds_col db) in
  exists selected omitted,
    selected ++ omitted ≡ₚ matching
    /\ length selected = Nat.min limit (length matching)
    /\ (forall a b, a ∈ selected -> b ∈ omitted ->
          optQ_le (explore_popularityScore b) (explore_popularityScore a) = true)
    /\ (forall pre a post b, selected = pre ++ a :: post -> b ∈ post ->
          optQ_le (explore_popularityScore b) (explore_popularityScore a) = true)
    /\ item_id <$> candidate_trending db limit
       = Some <$> omap explore_feedId selected
    /\ (length (candidate_trending db limit) <= limit)%nat
    /\ forall c, c ∈ candidate_trending db limit ->
         exists e fid, e ∈ selected /\ explore_feedId e = Some fid
           /\ c = {| item_id := Some fid; cf_score := None;
                     content_score := Some 0.5%Q; social_score := None;
                     popularity_score := Some (num_or0 (explore_popularityScore e));
                     category := post; feed_data := None |}.
Proof.
  cbv zeta. unfold candidate_trending.
  set (le := fun a b => optQ_le (explore_popularityScore a) (explore_popularityScore b)).
  set (matching := filter _ (explore_feeds_col db)).
  destruct (top_n_spec le (fun a b => optQ_le_total _ _)
              (fun a b c => optQ_le_trans _ _ _) limit matching)
    as (Hperm & Hlen & Hom & Hdesc).
  set (selected := take limit (sorted_desc le matching)) in *.
  exists selected, (drop limit (sorted_desc le matching)).
  split; [done|]. split; [done|]. split; [exact Hom|]. split; [exact Hdesc|].
  split; [|split].
  - generalize selected. clear. intros l. induction l as [|e l IH]; [done|].
    csimpl. destruct (explore_feedId e); csimpl; [f_equal|]; exact IH.
  - etrans; [apply length_omap_le|]. fold selected. rewrite Hlen. lia.
  - intros c Hc. apply list_elem_of_omap in Hc as (e & He & Hc).
    destruct (explore_feedId e) as [fid|] eqn:Ef; [|done].
    injection Hc as <-. by exists e, fid.
Qed.

(** ** Where the candidates of a regeneration come from *)

Lemma elem_of_first_seen_fold {K} `{EqDecision K} (l ks : list K) (a : K) :
  a ∈ fold_left (fun ks k => if decide (k ∈ ks) then ks else ks ++ [k]) l ks
  <-> a ∈ ks \/ a ∈ l.
Proof.
  revert ks. induction l as [|b l IH]; intros ks; simpl.
  - split; [by left | intros [?|H]; [done | by apply elem_of_nil in H]].
  - rewrite IH, elem_of_cons. destruct (decide (b ∈ ks)) as [Hb|Hb].
    + split; [tauto|]. intros [?|[->|?]]; tauto.
    + rewrite elem_of_app, list_elem_of_singleton. tauto.
Qed.

Lemma merge_candidates_elem_ids (cs : list Candidate) (k : option string) :
  k ∈ item_id <$> merge_candidates [cs] <-> k ∈ item_id <$> cs.
Proof.
  unfold merge_candidates. simpl. rewrite app_nil_r.
  destruct (merge_keys_ok cs) as [Hnd Hid]. cbv zeta in Hnd, Hid.
  rewrite merged_values_ids by done.
  rewrite merge_fold_keys, elem_of_first_seen_fold. simpl.
  split; [intros [H|H]; [by apply elem_of_nil in H | done] | by right].
Qed.

Lemma generate_inv (env : Env) (user_id : string) (excluded : gset string)
    (recommendations : list Scored) (feeds_map : list (string * Feed)) :
  generate_recommendations_for_user env user_id excluded
  = Ok (recommendations, feeds_map) ->
  exists from_gorse,
    feeds_map = gorse_feeds_map (env_db env) excluded
                  (get_gorse_recommendations (env_lib env) (env_gorse env))
    /\ mapM (gorse_candidate excluded feeds_map)
         (get_gorse_recommendations (env_lib env) (env_gorse env)) = Ok from_gorse
    /\ compute_hybrid (env_lib env) (env_db env) (env_now env) user_id
         (merge_candidates
            [candidate_followed_users (env_db env) user_id 50
             ++ candidate_interest (env_db env) user_id 30
             ++ omap id from_gorse
             ++ candidate_trending (env_db env) 20
             ++ related_candidates (env_db env) user_id excluded
             ++ social_candidates (env_db env) user_id excluded])
       = Ok recommendations.
Proof.
  unfold generate_recommendations_for_user. intros H.
  apply bind_Ok in H as (from_gorse & Hg & H).
  apply bind_Ok in H as (recs & Hh & H). injection H as <- <-.
  by exists from_gorse.
Qed.

Lemma from_gorse_elem (excluded : gset string) (feeds_map : list (string * Feed))
    (items : list GorseItem) (from_gorse : list (option Candidate)) (c : Candidate) :
  mapM (gorse_candidate excluded feeds_map) items = Ok from_gorse ->
  c ∈ omap id from_gorse ->
  exists it, it ∈ items /\ gorse_candidate excluded feeds_map it = Ok (Some c).
Proof.
  intros Hm Hc. apply list_elem_of_omap in Hc as (oc & Hoc & Hid).
  destruct oc as [c'|]; [|done]. injection Hid as ->.
  by apply (mapM_elem _ _ _ _ Hm).
Qed.

(** X16.  What is left of the exclusion.  An item of the exclusion set (seen
    or created by the user) can only reach the scored list of
    [generate_recommendations_for_user] through one of the three sources that
    are appended unchecked: posts of followed accounts, interest matches and
    trending entries.  The recommender's items, the related items and the
    socially boosted items never bring one in, and every scored identifier was
    proposed by some source. *)
Theorem excluded_only_from_unchecked_sources (env : Env) (user_id : string)
    (excluded : gset string) (recommendations : list Scored)
    (feeds_map : list (string * Feed)) :
  generate_recommendations_for_user env user_id excluded
  = Ok (recommendations, feeds_map) ->
  forall s, s ∈ recommendations ->
    (in_set (s_item_id s) excluded = true ->
     s_item_id s ∈ item_id <$> (candidate_followed_users (env_db env) user_id 50
                                ++ candidate_interest (env_db env) user_id 30
                                ++ candidate_trending (env_db env) 20))
    /\ (s_item_id s ∈ item_id <$> (candidate_followed_users (env_db env) user_id 50
                                   ++ candidate_interest (env_db env) user_id 30
                                   ++ candidate_trending (env_db env) 20)
        \/ (exists it, it ∈ get_gorse_recommendations (env_lib env) (env_gorse env)
                       /\ g_item_id it = match s_item_id s with
                                         | Some iid => JStr iid
                                         | None => JNull
                                         end)
        \/ s_item_id s ∈ item_id <$> related_candidates (env_db env) user_id excluded
        \/ s_item_id s ∈ item_id <$> social_candidates (env_db env) user_id excluded).
Proof.
  intros H s Hs.
  apply generate_inv in H as (from_gorse & -> & Hg & Hh).
  set (feeds_map := gorse_feeds_map _ _ _) in *.
  assert (Hin : s_item_id s ∈ s_item_id <$> recommendations)
    by (apply list_elem_of_fmap; eauto).
  rewrite (compute_hybrid_ids _ _ _ _ _ _ Hh) in Hin.
  apply (proj1 (merge_candidates_elem_ids _ _)) in Hin.
  apply list_elem_of_fmap in Hin as (c & Hid & Hc).
  destruct (checked_sources_respect_exclusion env user_id excluded feeds_map)
    as (Hgorse & Hrel & Hsoc).
  rewrite !elem_of_app in Hc.
  assert (Hsrc : forall l : list Candidate, c ∈ l -> s_item_id s ∈ item_id <$> l).
  { intros l Hl. rewrite Hid. apply list_elem_of_fmap. eauto. }
  destruct Hc as [Hc|[Hc|[Hc|[Hc|[Hc|Hc]]]]].
  - split; [intros _|left]; rewrite !fmap_app, !elem_of_app; auto.
  - split; [intros _|left]; rewrite !fmap_app, !elem_of_app; auto.
  - destruct (from_gorse_elem _ _ _ _ _ Hg Hc) as (it & Hit & Hcand).
    split.
    + intros Hex. rewrite Hid, (Hgorse _ _ Hcand) in Hex. done.
    + right. left. exists it. split; [done|].
      unfold gorse_candidate in Hcand.
      destruct (g_item_id it) as [| | |iid| |]; try done.
      destruct (bool_decide (iid ∈ excluded)); [done|].
      destruct (od_get feeds_map iid); [|done].
      injection Hcand as <-. by rewrite Hid.
  - split; [intros _|left]; rewrite !fmap_app, !elem_of_app; auto.
  - split.
    + intros Hex. rewrite Hid, (Hrel _ Hc) in Hex. done.
    + right. right. left. auto.
  - split.
    + intros Hex. rewrite Hid, (Hsoc _ Hc) in Hex. done.
    + right. right. right. auto.
Qed.

Lemma excluded_only_from_unchecked_sources_witness :
  Some post_1 ∈ item_id <$> (candidate_followed_users demo_db reader 50
                             ++ candidate_interest demo_db reader 30
                             ++ candidate_trending demo_db 20).
Proof.
  destruct (generate_recommendations_for_user demo_env reader
              (get_user_seen_items demo_db reader))
    as [[recs feeds_map]|e] eqn:E; [|vm_compute in E; discriminate E].
  assert (Hex : exists s, s ∈ recs /\ s_item_id s = Some post_1).
  { vm_compute in E. injection E as <- _.
    eexists. split; [apply list_elem_of_here | reflexivity]. }
  destruct Hex as (s & Hs & Hid).
  pose proof (proj1 (excluded_only_from_unchecked_sources demo_env reader _ recs
                       feeds_map E s Hs)) as H.
  rewrite Hid in H. apply H. vm_compute. reflexivity.
Defined.

(** ** Identifiers that are not ObjectIds *)



(** ** Inputs on which a request fails *)















(** ** Degradation of the external recommender *)

(** X19.  The external recommender is all or nothing.  [get_gorse_recommendations]
    returns either the normalized form of every entry of a 200 reply whose body
    is a JSON list, or nothing at all: a transport failure, any other status,
    a body that does not decode to a list, and a single entry whose score
    [float] rejects each yield the empty list, and no exception escapes. *)
Theorem get_gorse_recommendations_all_or_nothing (lib : Lib) (resp : GorseResponse) :
  let items := get_gorse_recommendations lib resp in
  (items = []
   \/ exists data, resp = GorseReply 200 (Some (JArr data))
                   /\ Forall2 (fun it g => normalize_entry lib it = Ok g) data items)
  /\ (forall status body, resp = GorseReply status body -> status <> 200 ->
                          items = [])
  /\ (forall data, resp = GorseReply 200 (Some (JArr data)) ->
        Exists (fun it => exists e, normalize_entry lib it = Raise e) data ->
        items = []).
Proof.
  cbv zeta. split; [|split].
  - destruct resp as [|status body]; [by left|]. simpl.
    destruct (decide (status = 200)) as [->|Hne].
    2:{ left. destruct status as [|p|p]; try done.
        repeat (destruct p as [p|p|]; try done). }
    destruct body as [[| | | |data|]|]; simpl; try by left.
    destruct (mapM (normalize_entry lib) data) as [items|e] eqn:E; [|by left].
    right. exists data. split; [done|]. by apply mapM_Forall2.
  - intros status body -> Hne. simpl.
    destruct status as [|p|p]; try done.
    repeat (destruct p as [p|p|]; try done).
  - intros data -> Hex. simpl.
    destruct (mapM (normalize_entry lib) data) as [items|e] eqn:E; [|done].
    exfalso. apply mapM_Forall2 in E.
    apply Exists_exists in Hex as (it & Hit & e & He).
    apply list_elem_of_lookup in Hit as [i Hi].
    destruct (Forall2_lookup_l _ _ _ _ _ E Hi) as (g & _ & Hg). congruence.
Qed.

(** ** The statistics of a regenerated answer *)

Lemma omap_ids_NoDup (recs : list Scored) :
  NoDup (s_item_id <$> recs) -> NoDup (omap s_item_id recs).
Proof.
  induction recs as [|s r IH]; csimpl; [constructor|].
  intros Hnd. apply NoDup_cons in Hnd as [Hs Hr].
  destruct (s_item_id s) as [k|] eqn:E; csimpl; [|auto].
  constructor; [|auto].
  intros Hk. apply list_elem_of_omap in Hk as (s' & Hs' & Hk).
  apply Hs. apply list_elem_of_fmap. eauto.
Qed.

Lemma liked_count (liked : gset string) (recs : list Scored) :
  NoDup (s_item_id <$> recs) ->
  size (liked ∩ list_to_set (omap s_item_id recs))
  = length (filter (fun s => in_set (s_item_id s) liked = true) recs).
Proof.
  intros Hnd.
  assert (E : liked ∩ list_to_set (omap s_item_id recs)
              = list_to_set (filter (fun k => k ∈ liked) (omap s_item_id recs))).
  { apply set_eq. intros k.
    rewrite elem_of_intersection, !elem_of_list_to_set, list_elem_of_filter. tauto. }
  rewrite E, size_list_to_set by by apply NoDup_filter, omap_ids_NoDup.
  clear. induction recs as [|s r IH]; [done|].
  rewrite (filter_cons _ s r).
  replace (omap s_item_id (s :: r))
    with (option_list (s_item_id s) ++ omap s_item_id r)
    by (csimpl; by destruct (s_item_id s)).
  rewrite filter_app, length_app, IH.
  destruct (s_item_id s) as [k|]; simpl.
  - destruct (decide (k ∈ liked)) as [Hk|Hk].
    + rewrite filter_cons_True by done.
      by rewrite (bool_decide_eq_true_2 _ Hk).
    + rewrite filter_cons_False by done.
      by rewrite (bool_decide_eq_false_2 _ Hk).
  - done.
Qed.

Lemma filter_count_split {A} (P : A -> bool) (l : list A) :
  (length (filter (fun x => P x = false) l)
   + length (filter (fun x => P x = true) l) = length l)%nat.
Proof.
  induction l as [|x l IH]; [done|]. rewrite !filter_cons.
  destruct (P x); simpl; lia.
Qed.

Lemma filter_count_mono {A} `{EqDecision A} (P : A -> Prop) `{!forall x, Decision (P x)}
    (l k : list A) :
  l ⊆+ k -> (length (filter P l) <= length (filter P k))%nat.
Proof.
  induction 1 as [|x l k _ IH|x y l|x l k _ IH|l k m _ IH1 _ IH2]; simpl.
  - done.
  - rewrite !filter_cons. destruct (decide (P x)); simpl; lia.
  - rewrite !filter_cons. destruct (decide (P x)), (decide (P y)); simpl; lia.
  - rewrite filter_cons. destruct (decide (P x)); simpl; lia.
  - lia.
Qed.

Lemma recommend_miss (env : Env) (cache : Cache) (user_id : string)
    (req : Request) (p : Page) (cache' : Cache) (st : Stats) :
  recommend env cache user_id req = (Success p, cache') ->
  resp_stats p = Some st ->
  exists full_list recommendations liked,
    build_full_list env user_id (clamp_ratio (req_personalized_ratio req))
    = Ok (full_list, recommendations, liked)
    /\ resp_total p = length full_list
    /\ filtered_already_liked st
       = size (liked ∩ list_to_set (omap s_item_id recommendations))
    /\ personalization_ratio st = clamp_ratio (req_personalized_ratio req).
Proof.
  unfold recommend. intros H Hst.
  assert (Hreg : forall page limit sid,
             regenerate env cache user_id page limit sid
               (clamp_ratio (req_personalized_ratio req)) = (Success p, cache') ->
             exists full_list recommendations liked,
               build_full_list env user_id (clamp_ratio (req_personalized_ratio req))
               = Ok (full_list, recommendations, liked)
               /\ resp_total p = length full_list
               /\ filtered_already_liked st
                  = size (liked ∩ list_to_set (omap s_item_id recommendations))
               /\ personalization_ratio st
                  = clamp_ratio (req_personalized_ratio req)).
  { intros page limit sid. unfold regenerate.
    destruct (build_full_list _ _ _) as [[[full recs] liked]|e]; [|done].
    destruct (cache_recommendations _ _ _ _ _ _) as [tok c'].
    intros [= <- _]. simpl in Hst. injection Hst as <-.
    by exists full, recs, liked. }
  destruct (truthy_str (req_session_id req) && negb (req_refresh req));
    [|by eapply Hreg].
  destruct (get_cached_recommendations _ _ _ _) as [cached|]; [|by eapply Hreg].
  destruct (serve_cached _ _ _ _ cached) as [p0|] eqn:Es; [|by eapply Hreg].
  injection H as -> ->.
  apply serve_cached_page_of in Es as (_ & _ & _ & Hnone). congruence.
Qed.

(** X20.  The statistics of a miss account for the scored items.  With [n]
    items scored by the pipeline, the answer's [total] plus its
    [filtered_already_liked] is at least min(n, 100), and equals [n] when at
    most 100 items were scored: every scored item is then either in the list
    or counted as filtered because the user liked it.  The reported
    [personalization_ratio] is the requested ratio clamped to [0, 1]. *)
Theorem stats_account_for_scored_items (env : Env) (cache : Cache)
    (user_id : string) (req : Request) (p : Page) (cache' : Cache) (st : Stats) :
  recommend env cache user_id req = (Success p, cache') ->
  resp_stats p = Some st ->
  exists full_list recommendations liked,
    build_full_list env user_id (clamp_ratio (req_personalized_ratio req))
    = Ok (full_list, recommendations, liked)
    /\ (Nat.min (length recommendations) 100
        <= resp_total p + filtered_already_liked st)%nat
    /\ ((length recommendations <= 100)%nat ->
        (resp_total p + filtered_already_liked st = length recommendations)%nat)
    /\ (0 <= personalization_ratio st <= 1)%Q
    /\ personalization_ratio st = clamp_ratio (req_personalized_ratio req).
Proof.
  intros H Hst.
  destruct (recommend_miss _ _ _ _ _ _ _ H Hst)
    as (full & recs & liked & Hbuild & Htotal & Hfiltered & Hratio).
  exists full, recs, liked. split; [done|].
  pose proof (clamp_ratio_range (req_personalized_ratio req)) as Hr.
  apply build_full_list_inv in Hbuild as (feeds_map & Hgen & Hliked & Hfull).
  pose proof (generate_ids_unique _ _ _ _ _ Hgen) as Hnd.
  set (cats := categorize <$> recs) in *.
  set (mixed := mix (rnd (env_lib env)) (clamp_ratio (req_personalized_ratio req))
                  cats) in *.
  assert (Hcats : NoDup (cat_id <$> cats)) by (unfold cats; by rewrite categorize_ids).
  assert (Hmixlen : length mixed = Nat.min (length recs) 100).
  { unfold mixed. rewrite mix_length by done. unfold cats. by rewrite length_fmap. }
  assert (Hsub : mixed ⊆+ cats).
  { apply NoDup_submseteq.
    - eapply NoDup_fmap_1, mix_ids_unique; done.
    - intros c. apply mix_elem. }
  set (P := fun c : Categorized => in_set (s_item_id (base c)) liked) in *.
  assert (Hcount : length (filter (fun c => P c = true) cats)
                   = filtered_already_liked st).
  { rewrite Hfiltered, liked_count by done. unfold cats, P. clear.
    induction recs as [|s r IH]; [done|]. rewrite fmap_cons, !filter_cons. simpl.
    destruct (decide (in_set (s_item_id s) liked = true)); simpl; by rewrite IH. }
  pose proof (filter_count_split P mixed) as Hsplit.
  pose proof (filter_count_mono (fun c => P c = true) mixed cats Hsub) as Hmono.
  rewrite Htotal, (mapM_length _ _ _ Hfull).
  unfold P in *. cbv beta in *. fold mixed.
  split; [lia|]. split; [|by rewrite Hratio].
  intros Hle.
  assert (Hperm : mixed ≡ₚ cats).
  { apply submseteq_length_Permutation; [done|].
    rewrite Hmixlen. unfold cats. rewrite length_fmap. lia. }
  assert (Heq : length (filter (fun c => P c = true) mixed)
                = length (filter (fun c => P c = true) cats))
    by by rewrite Hperm.
  unfold P in Heq. cbv beta in Heq. lia.
Qed.

Lemma stats_account_for_scored_items_witness :
  exists p st,
    (recommend liking_env degraded_cache reader first_request).1 = Success p
    /\ resp_stats p = Some st
    /\ (resp_total p + filtered_already_liked st = 8)%nat.
Proof.
  assert (E0 : exists p st,
             recommend liking_env degraded_cache reader first_request
             = (Success p, degraded_cache) /\ resp_stats p = Some st)
    by (vm_compute; eexists _, _; split; reflexivity).
  destruct E0 as (p & st & E & Hst).
  assert (Hb : match build_full_list liking_env reader
                       (clamp_ratio (req_personalized_ratio first_request)) with
               | Ok (_, recs, _) => length recs
               | Raise _ => 0%nat
               end = 8%nat) by (vm_compute; reflexivity).
  destruct (stats_account_for_scored_items _ _ _ _ _ _ _ E Hst)
    as (full & recs & liked & Hbuild & _ & Heq & _).
  rewrite Hbuild in Hb.
  exists p, st. split; [by rewrite E|]. split; [done|].
  rewrite Heq; [exact Hb | rewrite Hb; lia].
Defined.

(** ** Invalidation *)

Lemma lookup_fold_delete {V} (keys : list string) (d : gmap string V) (k : string) :
  fold_left (fun d key => delete key d) keys d !! k
  = if decide (k ∈ keys) then None else d !! k.
Proof.
  revert d. induction keys as [|x keys IH]; intros d; simpl; [done|].
  rewrite IH. destruct (decide (k ∈ keys)) as [Hk|Hk].
  - rewrite decide_True; [done|]. by right.
  - destruct (decide (k = x)) as [->|Hne].
    + rewrite decide_True by by left. apply lookup_delete_eq.
    + rewrite decide_False by (rewrite elem_of_cons; tauto).
      by apply lookup_delete_ne.
Qed.

Lemma append_assoc (a b c : string) : (a +:+ b) +:+ c = a +:+ b +:+ c.
Proof.
  induction a as [|x a IH]; rewrite ?append_cons, ?append_nil; [done|].
  by rewrite IH.
Qed.

Lemma prefix_cons (a b : ascii) (s t : string) :
  String.prefix (String a s) (String b t)
  = if ascii_dec a b then String.prefix s t else false.
Proof. reflexivity. Qed.

Lemma prefix_append (a b : string) : String.prefix a (a +:+ b) = true.
Proof.
  induction a as [|c a IH]; rewrite ?append_cons, ?append_nil.
  - by destruct b.
  - rewrite prefix_cons. by destruct (ascii_dec c c).
Qed.

Lemma prefix_colon (u u' s : string) :
  colon_free u -> colon_free u' ->
  String.prefix (u +:+ ":") (u' +:+ ":" +:+ s) = true -> u = u'.
Proof.
  revert u'. induction u as [|c u IH]; intros [|c' u'] Hu Hu';
    rewrite ?append_cons, ?append_nil, ?prefix_cons.
  - done.
  - destruct (ascii_dec ":" c') as [<-|_]; [|done]. by destruct Hu' as [? _].
  - destruct (ascii_dec c ":") as [->|_]; [|done]. by destruct Hu as [? _].
  - destruct (ascii_dec c c') as [->|_]; [|done].
    destruct Hu as [_ Hu], Hu' as [_ Hu']. intros H. f_equal. by apply IH.
Qed.

Lemma invalidated_lookup (glob : string -> string -> bool) (cache : Cache)
    (client : RedisClient) (user_id : string) (k : string) :
  REDIS_AVAILABLE cache = true -> redis_client cache = Some client ->
  conn_up client = true ->
  exists client',
    invalidate_user_cache glob cache user_id
    = {| REDIS_AVAILABLE := true; redis_client := Some client' |}
    /\ conn_up client' = true
    /\ conn_data client' !! k
       = if decide (k = "rec_latest:" +:+ user_id
                    \/ glob ("rec_session:" +:+ user_id +:+ ":*") k = true)
         then None else conn_data client !! k.
Proof.
  intros Ha Hc Hu. unfold invalidate_user_cache. rewrite Ha, Hc, Hu.
  eexists. split; [reflexivity|]. split; [done|]. simpl.
  destruct (decide (k = "rec_latest:" +:+ user_id)) as [->|Hne].
  - rewrite lookup_delete_eq. by rewrite decide_True by by left.
  - rewrite lookup_delete_ne by done. rewrite lookup_fold_delete.
    destruct (glob ("rec_session:" +:+ user_id +:+ ":*") k) eqn:Eg.
    + rewrite (decide_True (P := _ \/ _)) by by right.
      destruct (conn_data client !! k) as [v|] eqn:Ek.
      * rewrite decide_True; [done|].
        apply list_elem_of_filter. split; [done|].
        apply list_elem_of_fmap. exists (k, v). split; [done|].
        by apply elem_of_map_to_list.
      * by destruct (decide _).
    + rewrite (decide_False (P := _ \/ _)) by (intros [?|?]; done).
      rewrite decide_False; [done|].
      intros Hin. apply list_elem_of_filter in Hin as [Hin _]. congruence.
Qed.

(** X21.  Invalidation clears one user and only that user.  With a key matcher
    that reads the pattern ["rec_session:<user>:*"] as a prefix test (what the
    server's glob matching does when the identifier holds no special
    character), [invalidate_user_cache] on a reachable cache makes every later
    read for that user, with or without session id, find nothing, and leaves
    the reads of every other user as they were, provided neither identifier
    holds a colon.  On a degraded or lost cache it changes nothing. *)
Theorem invalidate_user_cache_clears_user (glob : string -> string -> bool)
    (cache : Cache) (user_id : string) :
  (forall key, glob ("rec_session:" +:+ user_id +:+ ":*") key
               = String.prefix ("rec_session:" +:+ user_id +:+ ":") key) ->
  let cache' := invalidate_user_cache glob cache user_id in
  (unreachable cache -> cache' = cache)
  /\ (reachable cache ->
      reachable cache'
      /\ (forall now session_id,
            get_cached_recommendations now cache' user_id session_id = None)
      /\ (forall now other session_id,
            colon_free user_id -> colon_free other -> other <> user_id ->
            get_cached_recommendations now cache' other session_id
            = get_cached_recommendations now cache other session_id)).
Proof.
  intros Hglob cache'. split.
  - intros [[Hd|Hd]|(client & Ha & Hc & Hu)]; unfold cache', invalidate_user_cache.
    + by rewrite Hd.
    + rewrite Hd. by destruct (REDIS_AVAILABLE cache).
    + by rewrite Ha, Hc, Hu.
  - intros (client & Ha & Hc & Hu).
    assert (Hread : forall now u sid,
               get_cached_recommendations now cache' u sid
               = if decide (get_cache_key u sid = "rec_latest:" +:+ user_id
                            \/ glob ("rec_session:" +:+ user_id +:+ ":*")
                                 (get_cache_key u sid) = true)
                 then None else get_cached_recommendations now cache u sid).
    { intros now u sid.
      destruct (invalidated_lookup glob cache client user_id (get_cache_key u sid)
                  Ha Hc Hu) as (client' & E & Hu' & Hl).
      unfold cache'. rewrite E.
      unfold get_cached_recommendations, redis_get. simpl.
      rewrite Ha, Hc, Hu, Hu', Hl. by destruct (decide _). }
    split; [|split].
    + destruct (invalidated_lookup glob cache client user_id ""%string Ha Hc Hu)
        as (client' & E & Hu' & _).
      unfold cache'. rewrite E. by exists client'.
    + intros now sid. rewrite Hread. rewrite decide_True; [done|].
      unfold get_cache_key. destruct sid as [[|c sid]|]; [by left|..|by left].
      right. rewrite Hglob.
      replace ("rec_session:" +:+ user_id +:+ ":" +:+ String c sid)
        with (("rec_session:" +:+ user_id +:+ ":") +:+ String c sid).
      * apply prefix_append.
      * by rewrite !append_assoc.
    + intros now other sid Hcf Hcf' Hne. rewrite Hread. rewrite decide_False; [done|].
      rewrite Hglob. unfold get_cache_key.
      assert (Hstrip : forall a b,
                 String.prefix ("rec_session:" +:+ a) ("rec_session:" +:+ b)
                 = String.prefix a b).
      { intros a b. rewrite !append_cons, !append_nil, !prefix_cons.
        repeat match goal with
               | |- context [ascii_dec ?x ?y] => destruct (ascii_dec x y); [|done]
               end.
        done. }
      assert (Hlatest : forall a b,
                 String.prefix ("rec_session:" +:+ a) ("rec_latest:" +:+ b) = false).
      { intros a b. rewrite !append_cons, !append_nil, !prefix_cons.
        repeat match goal with
               | |- context [ascii_dec ?x ?y] =>
                   destruct (ascii_dec x y) as [Heq|_];
                   [first [discriminate Heq | clear Heq] | reflexivity]
               end. }
      destruct sid as [[|c sid]|].
      * rewrite Hlatest. intros [E|E]; [|discriminate E].
        rewrite !append_cons, !append_nil in E. injection E as E. by apply Hne.
      * rewrite Hstrip. intros [E|E].
        -- rewrite !append_cons, !append_nil in E. discriminate E.
        -- by apply prefix_colon in E.
      * rewrite Hlatest. intros [E|E]; [|discriminate E].
        rewrite !append_cons, !append_nil in E. injection E as E. by apply Hne.
Qed.

Lemma invalidate_user_cache_clears_user_witness :
  get_cached_recommendations demo_now
    (invalidate_user_cache star_suffix_glob shared_cache reader) reader
    (Some "s1"%string) = None
  /\ get_cached_recommendations demo_now
       (invalidate_user_cache star_suffix_glob shared_cache reader) author
       (Some "s1"%string) = Some (demo_cached 5).
Proof.
  assert (Hglob : forall key,
             star_suffix_glob ("rec_session:" +:+ reader +:+ ":*") key
             = String.prefix ("rec_session:" +:+ reader +:+ ":") key)
    by (intros key; reflexivity).
  assert (Hreach : reachable shared_cache).
  { eexists. split; [reflexivity|]. split; reflexivity. }
  destruct (proj2 (invalidate_user_cache_clears_user star_suffix_glob shared_cache
                     reader Hglob) Hreach) as (_ & Hown & Hother).
  split; [apply Hown|].
  rewrite Hother.
  - vm_compute. reflexivity.
  - vm_compute. repeat split; discriminate.
  - vm_compute. repeat split; discriminate.
  - discriminate.
Defined.

(** ** Friends who liked an item *)

Lemma friend_map_fold (likes : list Like) (m0 : list (string * list string))
    (k : string) :
  let add := fun (m : list (string * list string)) (l : Like) =>
    od_set m (str_oid (like_target l))
      (default [] (od_get m (str_oid (like_target l))) ++ [str_oid (like_userId l)]) in
  default [] (od_get (fold_left add likes m0) k)
  = default [] (od_get m0 k)
    ++ ((fun l => str_oid (like_userId l))
          <$> filter (fun l => str_oid (like_target l) = k) likes).
Proof.
  cbv zeta. revert m0. induction likes as [|l likes IH]; intros m0; simpl.
  - by rewrite app_nil_r.
  - rewrite IH, od_get_set, filter_cons.
    destruct (decide (k = str_oid (like_target l))) as [->|Hne].
    + rewrite decide_True by done. simpl. by rewrite <- app_assoc.
    + rewrite decide_False by congruence. done.
Qed.

(** X22.  [friend_liked_by] names the friends' likes: for every entry of the
    regenerated list, the field lists, in the order of the likes collection,
    the author of each like left on that item (by [targetId], or [feedId] when
    there is none) by an account the user follows; it is empty when the user
    follows nobody. *)
Theorem friend_liked_by_lists_friend_likes (env : Env) (user_id : string)
    (ratio : Q) (full_list : list Recommendation) (recommendations : list Scored)
    (liked : gset string) :
  build_full_list env user_id ratio = Ok (full_list, recommendations, liked) ->
  forall rec k, rec ∈ full_list -> rec_item_id rec = Some k ->
    friend_liked_by rec
    = (fun l => str_oid (like_userId l))
        <$> filter (fun l => str_oid (like_target l) = k
                             /\ like_userId l ∈ friends_of (env_db env) user_id)
              (likes_col (env_db env)).
Proof.
  intros H rec k Hrec Hk.
  apply build_full_list_inv in H as (feeds_map & _ & _ & Hfull).
  destruct (mapM_elem _ _ _ _ Hfull Hrec) as (c & _ & Hann).
  unfold annotate in Hann. apply bind_Ok in Hann as (md & _ & Hann).
  injection Hann as <-. simpl in Hk. simpl. rewrite Hk. simpl.
  unfold friend_map_of, friends_of.
  destruct (ObjectId_of user_id) as [user_oid|].
  2:{ simpl. by rewrite filter_none by (intros x _ [_ Hx]; by apply elem_of_nil in Hx). }
  destruct (following (env_db env) user_oid) as [|f fs] eqn:Ef.
  { simpl. by rewrite filter_none by (intros x _ [_ Hx]; by apply elem_of_nil in Hx). }
  rewrite (friend_map_fold _ [] k). simpl.
  by rewrite list_filter_filter.
Qed.

(** ** Paging through a session *)

(** X23.  The pages of a session tile the cached list.  While a cached list
    is readable under the session id, requests for the pages 1, 2, ..., n
    with the same limit, each served from the cache, return consecutive,
    non-overlapping slices: put end to end they are the first n * limit
    entries of the cached list, and the cache is never modified.  Every page
    is served this way when the list holds at least 100 entries, and
    otherwise as long as the page ends before the end of the list. *)
Theorem session_pages_tile_the_list (env : Env) (cache : Cache) (user_id : string)
    (session_id : option string) (limit : Z) (cached : list Recommendation)
    (n : nat) :
  truthy_str session_id = true ->
  get_cached_recommendations (env_now env) cache user_id session_id = Some cached ->
  Z.of_nat n * clamp_limit limit < Z.of_nat (length cached)
  \/ 100 <= Z.of_nat (length cached) ->
  Forall (fun i => (recommend env cache user_id (page_request session_id limit i)).2
                   = cache)
    (seq 1 n)
  /\ concat ((fun i => recommendations_of
                         (recommend env cache user_id
                            (page_request session_id limit i)).1) <$> seq 1 n)
     = take (n * Z.to_nat (clamp_limit limit)) cached.
Proof.
  intros Hs Hget Hfits.
  pose proof (clamp_limit_range limit) as HL.
  set (L := clamp_limit limit) in *.
  assert (Hpage : forall i, (1 <= i <= n)%nat ->
             recommend env cache user_id (page_request session_id limit i)
             = (Success {| resp_user := user_id;
                           resp_page := Z.of_nat i;
                           resp_limit := L;
                           resp_session_id := session_id;
                           resp_total := length cached;
                           resp_has_more :=
                             (Z.of_nat i - 1) * L + L <? Z.of_nat (length cached);
                           resp_results_count :=
                             length (py_slice cached ((Z.of_nat i - 1) * L)
                                       ((Z.of_nat i - 1) * L + L));
                           resp_recommendations :=
                             py_slice cached ((Z.of_nat i - 1) * L)
                               ((Z.of_nat i - 1) * L + L);
                           resp_cache := hit;
                           resp_stats := None |}, cache)).
  { intros i Hi.
    rewrite (recommend_read_path env cache user_id _ cached) by done.
    simpl. fold L.
    assert (Hcp : clamp_page (Z.of_nat i) = Z.of_nat i)
      by (unfold clamp_page; destruct (Z.ltb_spec (Z.of_nat i) 1); lia).
    rewrite Hcp.
    destruct (serve_cached_spec user_id (Z.of_nat i) L session_id cached)
      as [_ Hhit]; [lia..|].
    rewrite Hhit; [done|]. nia. }
  clear Hfits. induction n as [|n IH]; [by split|].
  destruct IH as [IHc IHl]; [intros i Hi; apply Hpage; lia|].
  rewrite seq_S, Forall_app, fmap_app, concat_app.
  split.
  - split; [done|]. constructor; [|constructor].
    change (1 + n)%nat with (S n). by rewrite (Hpage (S n)) by lia.
  - rewrite IHl. change (1 + n)%nat with (S n). simpl.
    rewrite (Hpage (S n)) by lia. simpl.
    rewrite app_nil_r. unfold py_slice.
    replace (Z.to_nat ((Z.of_nat (S n) - 1) * L + L - (Z.of_nat (S n) - 1) * L))
      with (Z.to_nat L) by lia.
    replace (Z.to_nat ((Z.of_nat (S n) - 1) * L)) with (n * Z.to_nat L)%nat by nia.
    rewrite take_take_drop. f_equal. lia.
Qed.

Lemma session_pages_tile_the_list_witness :
  concat ((fun i => recommendations_of
                      (recommend demo_env (demo_cache 25) reader
                         (page_request demo_session 10 i)).1) <$> seq 1 2)
  = take 20 (demo_cached 25).
Proof.
  refine (proj2 (session_pages_tile_the_list demo_env (demo_cache 25) reader
                   demo_session 10 (demo_cached 25) 2 eq_refl _ _)).
  - vm_compute. reflexivity.
  - left. vm_compute. reflexivity.
Defined.

Lemma full_list_of_elem (env : Env) (user_id : string) (ratio : Q)
    (rec : Recommendation) :
  rec ∈ full_list_of env user_id ratio ->
  exists full_list recommendations liked,
    build_full_list env user_id ratio = Ok (full_list, recommendations, liked)
    /\ rec ∈ full_list.
Proof.
  unfold full_list_of.
  destruct (build_full_list env user_id ratio) as [[[full recs] liked]|e].
  - intros H. by exists full, recs, liked.
  - intros H. by apply elem_of_nil in H.
Qed.

Lemma friend_liked_by_lists_friend_likes_witness :
  exists rec, rec ∈ full_list_of social_env reader 0.7
              /\ rec_item_id rec = Some (feed_id (busy_post 1))
              /\ friend_liked_by rec = [author].
Proof.
  assert (Hex : exists rec,
             full_list_of social_env reader 0.7 !! 4%nat = Some rec
             /\ rec_item_id rec = Some (feed_id (busy_post 1)))
    by (vm_compute; eexists; split; reflexivity).
  destruct Hex as (rec & Hl & Hid).
  pose proof (list_elem_of_lookup_2 _ _ _ Hl) as Hin.
  exists rec. split; [exact Hin|]. split; [exact Hid|].
  destruct (full_list_of_elem _ _ _ _ Hin) as (full & recs & liked & E & Hin').
  rewrite (friend_liked_by_lists_friend_likes _ _ _ _ _ _ E rec _ Hin' Hid).
  vm_compute. reflexivity.
Defined.
